(** * signalfd_ctx: a signalfd emulation on top of kqueue

    Shallow embedding of [src/signalfd_ctx.c] (epoll-shim).  The C code talks
    to the kernel (sigpending, sigtimedwait, kevent), to libpthread and to
    the [kqueue_event] helper.  Those collaborators are modelled by a [World]
    that is threaded through every call; what the environment does at each
    call (signals that arrive just before it, an error it reports) is read
    from a script, so every interleaving is an input of the model. *)

From Stdlib Require Import ZArith NArith Lia List Bool.
From stdpp Require Import base option list gmap.

Local Open Scope Z_scope.

(** ** C-level data *)

(** The two branches of [#ifdef __OpenBSD__] in the source. *)
Inductive Platform := OpenBSD | Generic.

(** Error numbers and poll bits of the BSD headers. *)
Definition EINVAL : Z := 22.
Definition EAGAIN : Z := 35.
Definition EWOULDBLOCK : Z := EAGAIN.
Definition POLLIN : N := 1%N.

Record timespec := { tv_sec : Z; tv_nsec : Z }.

(** [sigset_t] is a bit mask: signal [s >= 1] is bit [s - 1]. *)
Definition sigisemptyset (s : N) : bool := (s =? 0)%N.
Definition sigandset (sl sr : N) : N := N.land sl sr.
Definition sigismember (s : N) (signo : Z) : bool :=
  (0 <? signo) && N.testbit s (Z.to_N (signo - 1)).

(** [sigmask(signum)] is [1U << (signum - 1)] on a 32-bit unsigned. *)
Definition sigmask (signo : Z) : N :=
  (N.shiftl 1 (Z.to_N (signo - 1)) mod 2 ^ 32)%N.

(** Number of trailing zero bits of a positive. *)
Fixpoint ctz (p : positive) : Z :=
  match p with
  | xO q => 1 + ctz q
  | _ => 0
  end.

(** The lowest-numbered signal of a set, zero for the empty set. *)
Definition lowest_signal (x : N) : Z :=
  match x with
  | N0 => 0
  | Npos p => 1 + ctz p
  end.

(** [__builtin_ffsll]: one plus the index of the least significant set bit
    of the 64-bit argument, zero when there is none. *)
Definition ffsll (x : N) : Z := lowest_signal (x mod 2 ^ 64)%N.

(** [(uint32_t)s] *)
Definition to_uint32 (s : Z) : N := Z.to_N (s mod 2 ^ 32).

(** [_SIG_MAXSIG]: the fallback [8 * sizeof(sigset_t)] of the source on
    OpenBSD (a 32-bit [sigset_t]), the header's 128 elsewhere. *)
Definition SIG_MAXSIG (p : Platform) : Z :=
  match p with OpenBSD => 32 | Generic => 128 end.

(** The fields of [SignalFDCtx] the code reads; its mutex and its
    [kqueue_event] live in the [World]. *)
Record SignalFDCtx := { kq : Z; sigs : N }.

(** ** The environment *)

(** What the environment does at one external call: the signals delivered
    to the process just before the call takes effect, the error the call
    fails with (if any), and the signal a consuming wait prefers to hand
    out when several qualify. *)
Record env_step := { arrive : N; fault : option positive; choice : Z }.

Definition quiet : env_step := {| arrive := 0; fault := None; choice := 0 |}.

(** Outcome of an external call as recorded in the trace. *)
Inductive ret := Done (v : Z) | Failed (e : Z).

Inductive kev := KevUser | KevSignal (signo : Z).

Inductive event :=
| EvMutexInit (r : Z)
| EvMutexDestroy (r : Z)
| EvMutexLock
| EvMutexUnlock
| EvKqueueEventInit (r : Z)
| EvKqueueEventTerminate (r : Z)
| EvKqueueEventTrigger (r : Z)
| EvKqueueEventClear
| EvKevent (changes : list kev) (r : ret)
| EvSigpending (r : ret) (set : N)
| EvSigtimedwait (set : N) (timeout : timespec) (r : ret)
| EvThrsigdivert (mask : N) (timeout : timespec) (r : ret).

(** The process and the notification queue the monitor is attached to:
    - [pending]: the process-level pending-signal set;
    - [observed]: the signals that have an EVFILT_SIGNAL entry on the queue;
    - [ready]: the registration's ready bit;
    - [errno]: the C [errno];
    - [mem]: the 32-bit cells out-parameters point to;
    - [env]: what the environment will do at the calls to come;
    - [trace]: the external calls made so far, oldest first. *)
Record World := {
  pending : N;
  observed : N;
  ready : bool;
  errno : Z;
  mem : gmap N N;
  env : list env_step;
  trace : list event
}.

Definition set_pending (v : N) (w : World) : World :=
  {| pending := v; observed := observed w; ready := ready w; errno := errno w;
     mem := mem w; env := env w; trace := trace w |}.
Definition set_observed (v : N) (w : World) : World :=
  {| pending := pending w; observed := v; ready := ready w; errno := errno w;
     mem := mem w; env := env w; trace := trace w |}.
Definition set_ready (v : bool) (w : World) : World :=
  {| pending := pending w; observed := observed w; ready := v; errno := errno w;
     mem := mem w; env := env w; trace := trace w |}.
Definition set_errno (v : Z) (w : World) : World :=
  {| pending := pending w; observed := observed w; ready := ready w; errno := v;
     mem := mem w; env := env w; trace := trace w |}.
Definition set_mem (v : gmap N N) (w : World) : World :=
  {| pending := pending w; observed := observed w; ready := ready w; errno := errno w;
     mem := v; env := env w; trace := trace w |}.
Definition set_env (v : list env_step) (w : World) : World :=
  {| pending := pending w; observed := observed w; ready := ready w; errno := errno w;
     mem := mem w; env := v; trace := trace w |}.
Definition log (ev : event) (w : World) : World :=
  {| pending := pending w; observed := observed w; ready := ready w; errno := errno w;
     mem := mem w; env := env w; trace := trace w ++ [ev] |}.

(** [*p = v] on a 32-bit cell. *)
Definition store (p : N) (v : N) (w : World) : World :=
  set_mem (<[p := v]> (mem w)) w.

(** Delivery of the signals of [s] to the process: they become pending, and
    the observer filter marks the registration ready when one of them is
    observed (the transition UNSET -> SET of the registration bit on a
    kernel delivery). *)
Definition deliver (s : N) (w : World) : World :=
  set_ready (ready w || negb (N.land s (observed w) =? 0)%N)
    (set_pending (N.lor (pending w) s) w).

(** Every external call starts by taking the next step of the script (a
    quiet one when the script is over) and letting its signals arrive. *)
Definition enter (w : World) : env_step * World :=
  match env w with
  | [] => (quiet, w)
  | e :: es => (e, deliver (arrive e) (set_env es w))
  end.

(** ** Kernel and libpthread *)

Definition pthread_mutex_init (w : World) : Z * World :=
  let '(e, w) := enter w in
  let r := match fault e with Some err => Zpos err | None => 0 end in
  (r, log (EvMutexInit r) w).

Definition pthread_mutex_destroy (w : World) : Z * World :=
  let '(e, w) := enter w in
  let r := match fault e with Some err => Zpos err | None => 0 end in
  (r, log (EvMutexDestroy r) w).

Definition pthread_mutex_lock (w : World) : World := log EvMutexLock w.
Definition pthread_mutex_unlock (w : World) : World := log EvMutexUnlock w.

(** [sigpending(&set)]: the process-level pending set, or -1 and [errno]. *)
Definition sigpending (w : World) : Z * N * World :=
  let '(e, w) := enter w in
  match fault e with
  | Some err =>
      (-1, 0%N, log (EvSigpending (Failed (Zpos err)) 0) (set_errno (Zpos err) w))
  | None => (0, pending w, log (EvSigpending (Done 0) (pending w)) w)
  end.

Definition timespec_valid (ts : timespec) : bool :=
  (0 <=? tv_sec ts) && (0 <=? tv_nsec ts) && (tv_nsec ts <? 1000000000).

(** The signal a consuming wait hands out among the available ones. *)
Definition pick_signal (pref : Z) (avail : N) : Z :=
  if sigismember avail pref then pref else lowest_signal avail.

(** A consuming wait on [set]: a pending signal of [set] is removed from
    the pending set and returned.  When none is pending the call fails at
    once with EINVAL for an invalid timespec and with EAGAIN once the
    timeout is over (time is not modelled). *)
Definition kernel_sigwait (set : N) (ts : timespec) (w : World) : ret * World :=
  let '(e, w) := enter w in
  match fault e with
  | Some err => (Failed (Zpos err), set_errno (Zpos err) w)
  | None =>
      let avail := N.land (pending w) set in
      if (avail =? 0)%N then
        let err := if timespec_valid ts then EAGAIN else EINVAL in
        (Failed err, set_errno err w)
      else
        let s := pick_signal (choice e) avail in
        (Done s, set_pending (N.clearbit (pending w) (Z.to_N (s - 1))) w)
  end.

Definition ret_value (r : ret) : Z :=
  match r with Done v => v | Failed _ => -1 end.

Definition sigtimedwait (set : N) (ts : timespec) (w : World) : Z * World :=
  let '(r, w) := kernel_sigwait set ts w in
  (ret_value r, log (EvSigtimedwait set ts r) w).

Definition thrsigdivert (mask : N) (ts : timespec) (w : World) : Z * World :=
  let '(r, w) := kernel_sigwait mask ts w in
  (ret_value r, log (EvThrsigdivert mask ts r) w).

Definition kev_signals (kevs : list kev) : N :=
  foldr (fun k acc =>
           match k with
           | KevSignal i => N.lor (N.shiftl 1 (Z.to_N (i - 1))) acc
           | KevUser => acc
           end) 0%N kevs.

(** [kevent(kq, kevs, n, NULL, 0, NULL)]: registers the entries of the
    change list.  A fresh registration is not ready: signals delivered
    before it do not fire the observer filter. *)
Definition kevent (kevs : list kev) (w : World) : Z * World :=
  let '(e, w) := enter w in
  match fault e with
  | Some err =>
      (-1, log (EvKevent kevs (Failed (Zpos err))) (set_errno (Zpos err) w))
  | None =>
      (0, log (EvKevent kevs (Done 0))
            (set_ready false (set_observed (kev_signals kevs) w)))
  end.

(** ** The [kqueue_event] helper *)

(** Modelled from the spec: [kqueue_event_init] is not in the source; it
    prepares the registration's own entry of the batch request. *)
Definition kqueue_event_init (w : World) : Z * list kev * World :=
  let '(e, w) := enter w in
  match fault e with
  | Some err => (Zpos err, [], log (EvKqueueEventInit (Zpos err)) w)
  | None => (0, [KevUser], log (EvKqueueEventInit 0) w)
  end.

(** Modelled from the spec: [kqueue_event_trigger] is not in the source;
    forceReady "marks the registration ready even absent a real kernel
    delivery".  A failing call leaves the bit as it is. *)
Definition kqueue_event_trigger (w : World) : Z * World :=
  let '(e, w) := enter w in
  match fault e with
  | Some err => (Zpos err, log (EvKqueueEventTrigger (Zpos err)) w)
  | None => (0, log (EvKqueueEventTrigger 0) (set_ready true w))
  end.

(** Modelled from the spec: [kqueue_event_clear] is not in the source;
    clear "resets the registration's ready state to false".  The source
    uses it as a statement, so it reports nothing. *)
Definition kqueue_event_clear (w : World) : World :=
  let '(e, w) := enter w in
  log EvKqueueEventClear (set_ready false w).

(** Modelled from the spec: [kqueue_event_terminate] is not in the source;
    deregister "removes the kernel-level entries and releases the
    handle". *)
Definition kqueue_event_terminate (w : World) : Z * World :=
  let '(e, w) := enter w in
  match fault e with
  | Some err => (Zpos err, log (EvKqueueEventTerminate (Zpos err)) w)
  | None =>
      (0, log (EvKqueueEventTerminate 0) (set_ready false (set_observed 0%N w)))
  end.

(** ** signalfd_ctx.c *)

(** [signalfd_has_pending]: [inl errno] when the query fails, else the
    values written to [*has_pending] and [*pending].  [sigandset] is the
    bitwise and of the source's macro and cannot fail. *)
Definition signalfd_has_pending (signalfd : SignalFDCtx) (w : World)
  : (Z + bool * N) * World :=
  let '(r, pending_sigs, w) := sigpending w in
  if r <? 0 then (inl (errno w), w)
  else
    let pending_sigs := sigandset pending_sigs (sigs signalfd) in
    (inr (negb (sigisemptyset pending_sigs), pending_sigs), w).

Definition signalfd_ctx_trigger_manually (signalfd : SignalFDCtx) (w : World)
  : Z * World :=
  kqueue_event_trigger w.

(** The change list of [signalfd_ctx_init]: the entry of [kqueue_event_init]
    followed by one EVFILT_SIGNAL entry per member of the set, for [i] from
    1 to [_SIG_MAXSIG]. *)
Definition init_kevs (p : Platform) (signalfd : SignalFDCtx) (kevs : list kev)
  : list kev :=
  kevs ++ (KevSignal <$>
             filter (fun i => sigismember (sigs signalfd) i = true)
                    (seqZ 1 (SIG_MAXSIG p))).

Definition signalfd_ctx_init (p : Platform) (kq0 : Z) (sigs0 : N) (w : World)
  : Z * SignalFDCtx * World :=
  let signalfd := {| kq := kq0; sigs := sigs0 |} in
  let '(ec, w) := pthread_mutex_init w in
  if negb (ec =? 0) then (ec, signalfd, w)
  else
    let out2 (ec : Z) (w : World) :=
      let '(_, w) := pthread_mutex_destroy w in (ec, signalfd, w) in
    let out (ec : Z) (w : World) :=
      let '(_, w) := kqueue_event_terminate w in out2 ec w in
    let '(ec, kevs, w) := kqueue_event_init w in
    if negb (ec =? 0) then out2 ec w
    else
      let '(n, w) := kevent (init_kevs p signalfd kevs) w in
      if n <? 0 then out (errno w) w
      else
        let '(r, w) := signalfd_has_pending signalfd w in
        match r with
        | inl ec => out ec w
        | inr (has_pending, _) =>
            if has_pending then
              let '(ec, w) := signalfd_ctx_trigger_manually signalfd w in
              if negb (ec =? 0) then out ec w else (0, signalfd, w)
            else (0, signalfd, w)
        end.

Definition signalfd_ctx_terminate (signalfd : SignalFDCtx) (w : World)
  : Z * World :=
  let ec := 0 in
  let '(ec_local, w) := kqueue_event_terminate w in
  let ec := if negb (ec =? 0) then ec else ec_local in
  let '(ec_local, w) := pthread_mutex_destroy w in
  let ec := if negb (ec =? 0) then ec else ec_local in
  (ec, w).

(** How one turn of the OpenBSD [for (;;)] ends. *)
Inductive loop_exit := LoopReturn (ec : Z) | LoopBreak (s : Z).

(** The timespec of the consuming wait on each platform. *)
Definition claim_timeout (p : Platform) : timespec :=
  match p with
  | OpenBSD => {| tv_sec := 0; tv_nsec := -1 |}
  | Generic => {| tv_sec := 0; tv_nsec := 0 |}
  end.

(** The OpenBSD loop; [None] when [fuel] turns were not enough. *)
Fixpoint claim_loop (fuel : nat) (signalfd : SignalFDCtx) (w : World)
  : option (loop_exit * World) :=
  match fuel with
  | O => None
  | S fuel =>
      let '(r, w) := signalfd_has_pending signalfd w in
      match r with
      | inl ec => Some (LoopReturn ec, w)
      | inr (has_pending, pending_sigs) =>
          if negb has_pending then Some (LoopReturn EAGAIN, w)
          else
            let signum := ffsll pending_sigs in
            let mask := sigmask signum in
            let '(s, w) := thrsigdivert mask (claim_timeout OpenBSD) w in
            if (s <? 0) && ((errno w =? EINVAL) || (errno w =? EAGAIN))
            then claim_loop fuel signalfd w
            else Some (LoopBreak s, w)
      end
  end.

Definition signalfd_ctx_read_impl (p : Platform) (fuel : nat)
    (signalfd : SignalFDCtx) (ident : N) (w : World) : option (Z * World) :=
  let finish (s : Z) (w : World) :=
    if s <? 0 then (errno w, w) else (0, store ident (to_uint32 s) w) in
  match p with
  | OpenBSD =>
      match claim_loop fuel signalfd w with
      | None => None
      | Some (LoopReturn ec, w) => Some (ec, w)
      | Some (LoopBreak s, w) => Some (finish s w)
      end
  | Generic =>
      let '(s, w) := sigtimedwait (sigs signalfd) (claim_timeout Generic) w in
      Some (finish s w)
  end.

Definition signalfd_ctx_clear_signal (signalfd : SignalFDCtx)
    (was_triggered : bool) (w : World) : bool * World :=
  let clear_and_recheck (w : World) :=
    let w := kqueue_event_clear w in
    let '(r, w) := signalfd_has_pending signalfd w in
    match r with
    | inr (false, _) => (false, w)
    | _ =>
        let '(_, w) := signalfd_ctx_trigger_manually signalfd w in
        (true, w)
    end in
  if was_triggered then
    let '(r, w) := signalfd_has_pending signalfd w in
    match r with
    | inr (false, _) => clear_and_recheck w
    | _ => (true, w)
    end
  else clear_and_recheck w.

Definition signalfd_ctx_read (p : Platform) (fuel : nat)
    (signalfd : SignalFDCtx) (ident : N) (w : World) : option (Z * World) :=
  let w := pthread_mutex_lock w in
  match signalfd_ctx_read_impl p fuel signalfd ident w with
  | None => None
  | Some (ec, w) =>
      let w :=
        if (ec =? 0) || (ec =? EAGAIN) || (ec =? EWOULDBLOCK)
        then snd (signalfd_ctx_clear_signal signalfd false w)
        else w in
      Some (ec, pthread_mutex_unlock w)
  end.

(** [revents] is a nullable pointer. *)
Definition signalfd_ctx_poll (signalfd : SignalFDCtx) (revents : option N)
    (w : World) : World :=
  let w := pthread_mutex_lock w in
  let '(pending, w) :=
    signalfd_ctx_clear_signal signalfd (bool_decide (revents <> None)) w in
  let w :=
    match revents with
    | Some a => store a (if pending then POLLIN else 0%N) w
    | None => w
    end in
  pthread_mutex_unlock w.

(** * Vocabulary of the statements

    What the theorems below talk about: well-formed signal sets, scripts
    without errors or deliveries, the calls appended to the trace, the claim
    step as the specification words it, and the worlds the code is run on in
    the examples. *)

(** A [sigset_t] has [_SIG_MAXSIG] bits. *)
Definition wf_sigset (p : Platform) (s : N) : Prop :=
  (s < 2 ^ Z.to_N (SIG_MAXSIG p))%N.

(** The script reports no error. *)
Definition fault_free (es : list env_step) : Prop :=
  Forall (fun e => fault e = None) es.

(** The script delivers no signal. *)
Definition delivery_free (es : list env_step) : Prop :=
  Forall (fun e => arrive e = 0%N) es.

(** [tr] is what was appended to the trace between [w] and [w']. *)
Definition events_of (w w' : World) (tr : list event) : Prop :=
  trace w' = trace w ++ tr.

Definition is_wait (ev : event) : bool :=
  match ev with
  | EvSigtimedwait _ _ _ | EvThrsigdivert _ _ _ => true
  | _ => false
  end.

Definition wait_timeout (ev : event) : option timespec :=
  match ev with
  | EvSigtimedwait _ ts _ | EvThrsigdivert _ ts _ => Some ts
  | _ => None
  end.

Definition is_failed_query (ev : event) : bool :=
  match ev with
  | EvSigpending (Failed _) _ => true
  | _ => false
  end.

(** [errno] holds the code of a failed call: error codes are positive, so
    a claim step that returns [errno] never reports success. *)
Definition errno_set (w : World) : Prop := 0 < errno w.

(** Between [w] and [w'] only signals of [S] left the pending set. *)
Definition only_claims (S : N) (w w' : World) : Prop :=
  forall i, N.testbit (pending w) i = true ->
            N.testbit (pending w') i = false -> N.testbit S i = true.

(** Between [w] and [w'] no signal left the pending set. *)
Definition keeps_pending (w w' : World) : Prop :=
  forall i, N.testbit (pending w) i = true -> N.testbit (pending w') i = true.

Inductive claim_outcome := NoneReady | Claimed (s : Z) | OsError (e : Z).

(** The status [read] returns for each outcome. *)
Definition outcome_status (o : claim_outcome) : Z :=
  match o with NoneReady => EAGAIN | Claimed _ => 0 | OsError e => e end.

(** The allow-list of failure codes that make the loop try again. *)
Definition benign (e : Z) : Prop := e = EINVAL \/ e = EAGAIN.

(** [g] is the lowest-numbered signal of [set]. *)
Definition is_lowest_member (set : N) (g : Z) : Prop :=
  sigismember set g = true /\ forall j, 1 <= j < g -> sigismember set j = false.

(** The set that holds signal [g] alone. *)
Definition single (g : Z) : N := (2 ^ Z.to_N (g - 1))%N.

(** A wait that cannot sleep: its timespec is zero or invalid. *)
Definition nonblocking (ts : timespec) : Prop :=
  timespec_valid ts = false \/ (tv_sec ts = 0 /\ tv_nsec ts = 0).

(** The calls of one claim step on the variant without an atomic
    multi-signal wait, and how the step ends: recompute the pending subset;
    empty, report NoneReady; else wait without blocking on the
    lowest-numbered pending signal alone; a benign failure starts over, any
    other failure is the result, a success is the claimed signal. *)
Inductive claim_run (sigs : N) : list event -> claim_outcome -> Prop :=
| run_none raw :
    N.land raw sigs = 0%N ->
    claim_run sigs [EvSigpending (Done 0) raw] NoneReady
| run_query_error e set :
    0 < e ->
    claim_run sigs [EvSigpending (Failed e) set] (OsError e)
| run_retry raw g ts e tr o :
    is_lowest_member (N.land raw sigs) g -> nonblocking ts ->
    benign e -> claim_run sigs tr o ->
    claim_run sigs
      (EvSigpending (Done 0) raw :: EvThrsigdivert (single g) ts (Failed e) :: tr) o
| run_claim raw g ts s :
    is_lowest_member (N.land raw sigs) g -> nonblocking ts ->
    claim_run sigs
      [EvSigpending (Done 0) raw; EvThrsigdivert (single g) ts (Done s)] (Claimed s)
| run_error raw g ts e :
    is_lowest_member (N.land raw sigs) g -> nonblocking ts ->
    ~ benign e -> 0 < e ->
    claim_run sigs
      [EvSigpending (Done 0) raw; EvThrsigdivert (single g) ts (Failed e)] (OsError e).

(** How the exit of the OpenBSD loop, [return ec] or [break] with [s],
    matches an outcome. *)
Definition exit_matches (sigs : N) (x : loop_exit) (w : World)
    (o : claim_outcome) : Prop :=
  match x with
  | LoopReturn ec => (o = NoneReady /\ ec = EAGAIN) \/ (o = OsError ec /\ 0 < ec)
  | LoopBreak s =>
      (s < 0 /\ o = OsError (errno w) /\ 0 < errno w) \/
      (0 <= s /\ o = Claimed s /\ sigismember sigs s = true)
  end.

(** A monitor of signals 1 and 2. *)
Definition sfd12 : SignalFDCtx := {| kq := 3; sigs := 3 |}.

(** A process on whose queue signals 1 and 2 are observed, with the signals
    of [p] pending, the registration not ready and the script [es] to
    come. *)
Definition world_with (p : N) (es : list env_step) : World :=
  {| pending := p; observed := 3; ready := false; errno := 0; mem := ∅;
     env := es; trace := [] |}.

(** The first query sees signal 1 pending; the wait on it fails with EAGAIN
    while signal 2 arrives; the second turn claims signal 1. *)
Definition retry_script : list env_step :=
  [ quiet; {| arrive := 2; fault := Some 35%positive; choice := 0 |} ].

(** The call [read]'s claim step makes first when it finds nothing pending. *)
Definition claim_call_none (p : Platform) (sfd : SignalFDCtx) (raw : N) : event :=
  match p with
  | OpenBSD => EvSigpending (Done 0) raw
  | Generic => EvSigtimedwait (sigs sfd) (claim_timeout Generic) (Failed EAGAIN)
  end.

(** A step of the script at which the call fails with EFAULT. *)
Definition fails_efault : env_step :=
  {| arrive := 0; fault := Some 14%positive; choice := 0 |}.

(** From [w] to [w'] no signal left the pending set and the trace was
    only extended. *)
Definition advances (w w' : World) : Prop :=
  keeps_pending w w' /\ exists tr, events_of w w' tr.

(** The recheck after the clear fails while only the unmonitored signal 3
    is pending: the step forces the registration ready and returns true. *)
Definition after_failed_recheck : World :=
  {| pending := 4; observed := 3; ready := true; errno := 14; mem := ∅;
     env := [];
     trace := [EvKqueueEventClear; EvSigpending (Failed 14) 0;
               EvKqueueEventTrigger 0] |}.

(** Signal 2 arrives after the clear, just before the recheck. *)
Definition arrives2 : env_step := {| arrive := 2; fault := None; choice := 0 |}.

(** Every wait of [tr] was called with the timespec [ts0]. *)
Definition waits_with (ts0 : timespec) (tr : list event) : Prop :=
  Forall (fun ev => forall ts, wait_timeout ev = Some ts -> ts = ts0) tr.

(** No call of [tr] is a wait. *)
Definition no_waits (tr : list event) : Prop :=
  Forall (fun ev => is_wait ev = false) tr.

(** The world [read] leaves on OpenBSD after claiming signal 1. *)
Definition after_openbsd_claim : World :=
  {| pending := 0; observed := 3; ready := false; errno := 0;
     mem := <[64%N := 1%N]> ∅; env := [];
     trace := [EvMutexLock; EvSigpending (Done 0) 1;
               EvThrsigdivert 1 {| tv_sec := 0; tv_nsec := -1 |} (Done 1);
               EvKqueueEventClear; EvSigpending (Done 0) 0; EvMutexUnlock] |}.

(** [n] calls of [signalfd_ctx_poll] in a row, with the values they store
    through [revents]. *)
Fixpoint poll_repeatedly (n : nat) (sfd : SignalFDCtx) (a : N) (w : World)
  : list (option N) * World :=
  match n with
  | O => ([], w)
  | S n =>
      let w1 := signalfd_ctx_poll sfd (Some a) w in
      let '(rs, w2) := poll_repeatedly n sfd a w1 in
      (mem w1 !! a :: rs, w2)
  end.

(** The readiness value a monitor owes while [w]'s signals are pending. *)
Definition readiness (sfd : SignalFDCtx) (w : World) : N :=
  if (N.land (pending w) (sigs sfd) =? 0)%N then 0%N else POLLIN.

Definition no_failed_query (tr : list event) : Prop :=
  Forall (fun ev => is_failed_query ev = false) tr.

(** The script neither fails a call nor delivers a signal. *)
Definition calm (es : list env_step) : Prop :=
  fault_free es /\ delivery_free es.

(** The calls of a claim step: pending-set queries and consuming waits. *)
Definition is_claim_call (ev : event) : bool :=
  match ev with
  | EvSigpending _ _ | EvSigtimedwait _ _ _ | EvThrsigdivert _ _ _ => true
  | _ => false
  end.

Definition claim_only (tr : list event) : Prop :=
  Forall (fun ev => is_claim_call ev = true) tr.

Definition is_lock_call (ev : event) : bool :=
  match ev with
  | EvMutexLock | EvMutexUnlock => true
  | _ => false
  end.

(** No call of [tr] takes or releases the mutex. *)
Definition no_lock_calls (tr : list event) : Prop :=
  Forall (fun ev => is_lock_call ev = false) tr.

(** The signal a claim step hands out when nothing interferes: the
    lowest-numbered one on OpenBSD, the kernel's choice elsewhere. *)
Definition claimed_signal (p : Platform) (pref : Z) (avail : N) : Z :=
  match p with
  | OpenBSD => lowest_signal avail
  | Generic => pick_signal pref avail
  end.

(** The error the environment makes a call fail with at step [e] of the
    script, zero if it lets the call succeed. *)
Definition step_error (e : env_step) : Z :=
  match fault e with Some err => Z.pos err | None => 0 end.

(** One claim step on the variant without an atomic multi-signal wait, as
    the specification words it, on the process itself: query the pending
    set and restrict it to the monitor's set; empty, NoneReady; else a
    non-blocking consuming wait on the lowest-numbered pending signal alone;
    a success is the claimed signal, a benign failure starts over, any other
    failure is the result. *)
Inductive claim_steps (sfd : SignalFDCtx)
  : World -> claim_outcome -> World -> Prop :=
| steps_none w raw w1 :
    sigpending w = (0, raw, w1) ->
    N.land raw (sigs sfd) = 0%N ->
    claim_steps sfd w NoneReady w1
| steps_query_error w r raw w1 :
    sigpending w = (r, raw, w1) -> r < 0 ->
    claim_steps sfd w (OsError (errno w1)) w1
| steps_retry w raw w1 g ts s w2 o w3 :
    sigpending w = (0, raw, w1) ->
    is_lowest_member (N.land raw (sigs sfd)) g -> nonblocking ts ->
    thrsigdivert (single g) ts w1 = (s, w2) ->
    s < 0 -> benign (errno w2) ->
    claim_steps sfd w2 o w3 ->
    claim_steps sfd w o w3
| steps_claim w raw w1 g ts s w2 :
    sigpending w = (0, raw, w1) ->
    is_lowest_member (N.land raw (sigs sfd)) g -> nonblocking ts ->
    thrsigdivert (single g) ts w1 = (s, w2) ->
    0 <= s ->
    claim_steps sfd w (Claimed s) w2
| steps_error w raw w1 g ts s w2 :
    sigpending w = (0, raw, w1) ->
    is_lowest_member (N.land raw (sigs sfd)) g -> nonblocking ts ->
    thrsigdivert (single g) ts w1 = (s, w2) ->
    s < 0 -> ~ benign (errno w2) ->
    claim_steps sfd w (OsError (errno w2)) w2.

(** What an outcome says of the world the claim step leaves: NoneReady, no
    monitored signal is pending; a claimed signal is a member of the
    monitor's set and is no longer pending; an error code is positive. *)
Definition outcome_holds (sfd : SignalFDCtx) (o : claim_outcome) (w : World)
  : Prop :=
  match o with
  | NoneReady => N.land (pending w) (sigs sfd) = 0%N
  | Claimed s =>
      sigismember (sigs sfd) s = true /\
      N.testbit (pending w) (Z.to_N (s - 1)) = false
  | OsError e => 0 < e
  end.

(** The world [read]'s claim step leaves after an outcome: the claimed
    signal is written through [ident], nothing else is. *)
Definition claim_result (ident : N) (o : claim_outcome) (w : World) : World :=
  match o with
  | Claimed s => store ident (Z.to_N s) w
  | _ => w
  end.

(** A step of the script at which the call fails with EBUSY. *)
Definition fails_ebusy : env_step :=
  {| arrive := 0; fault := Some 16%positive; choice := 0 |}.

(** The world the OpenBSD claim step leaves from signal 1 pending under
    [retry_script]: a query, a wait that fails with EAGAIN while signal 2
    arrives, a second query, and the wait that claims signal 1. *)
Definition after_retry_claim : World :=
  {| pending := 2; observed := 3; ready := true; errno := 35;
     mem := <[64%N := 1%N]> ∅; env := [];
     trace := [EvSigpending (Done 0) 1;
               EvThrsigdivert 1 {| tv_sec := 0; tv_nsec := -1 |} (Failed 35);
               EvSigpending (Done 0) 3;
               EvThrsigdivert 1 {| tv_sec := 0; tv_nsec := -1 |} (Done 1)] |}.



(** [ev] is a call of [signalfd_ctx_init] after its first two that failed
    with [ec]. *)
Definition failed_with (ev : event) (ec : Z) : Prop :=
  match ev with
  | EvKevent _ (Failed e) | EvSigpending (Failed e) _ | EvKqueueEventTrigger e =>
      e = ec
  | _ => False
  end.

(** [ev] is a batch registration or a pending-set query that succeeded. *)
Definition succeeded (ev : event) : bool :=
  match ev with
  | EvKevent _ (Done _) | EvSigpending (Done _) _ => true
  | _ => false
  end.

(** The calls of a [signalfd_ctx_init] that returns [ec <> 0]: it stops at
    the first call that fails (the calls before it succeeded) and undoes
    what it had set up, in reverse order; the results of the teardown
    calls are ignored. *)
Definition init_rollback (ec : Z) (tr : list event) : Prop :=
  tr = [EvMutexInit ec] \/
  (exists r, tr = [EvMutexInit 0; EvKqueueEventInit ec; EvMutexDestroy r]) \/
  (exists mid ev r1 r2,
     tr = EvMutexInit 0 :: EvKqueueEventInit 0 :: mid ++
          [ev; EvKqueueEventTerminate r1; EvMutexDestroy r2] /\
     failed_with ev ec /\
     Forall (fun e => succeeded e = true) mid).

(** The pending-set query succeeds, the wait that follows fails with
    EINVAL, and nothing is delivered. *)
Definition wait_fails_once : list env_step :=
  [ quiet; {| arrive := 0; fault := Some 22%positive; choice := 0 |} ].

(** The world [signalfd_ctx_read] leaves on OpenBSD from signal 1 pending
    when the pending-set query fails with EFAULT: locked, queried,
    unlocked, and nothing else. *)
Definition after_read_efault : World :=
  {| pending := 1; observed := 3; ready := false; errno := 14; mem := ∅;
     env := [];
     trace := [EvMutexLock; EvSigpending (Failed 14) 0; EvMutexUnlock] |}.

(** The world [signalfd_ctx_read] leaves on OpenBSD from signals 1 and 3
    pending under [wait_fails_once]: the first wait is refused, the second
    turn claims signal 1, and the reconciliation step finds nothing
    monitored pending any more. *)
Definition after_wait_retry : World :=
  {| pending := 4; observed := 3; ready := false; errno := 22;
     mem := <[64%N := 1%N]> ∅; env := [];
     trace := [EvMutexLock; EvSigpending (Done 0) 5;
               EvThrsigdivert 1 {| tv_sec := 0; tv_nsec := -1 |} (Failed 22);
               EvSigpending (Done 0) 5;
               EvThrsigdivert 1 {| tv_sec := 0; tv_nsec := -1 |} (Done 1);
               EvKqueueEventClear; EvSigpending (Done 0) 4; EvMutexUnlock] |}.


(** The world [signalfd_ctx_init] leaves when its batch registration fails
    with EFAULT. *)
Definition after_init_rollback : World :=
  {| pending := 1; observed := 0; ready := false; errno := 14; mem := ∅;
     env := [];
     trace := [EvMutexInit 0; EvKqueueEventInit 0;
               EvKevent [KevUser; KevSignal 1; KevSignal 2] (Failed 14);
               EvKqueueEventTerminate 0; EvMutexDestroy 0] |}.

(** The world a successful [signalfd_ctx_init] leaves from signal 3
    pending alone. *)
Definition after_init_ok : World :=
  {| pending := 4; observed := 3; ready := false; errno := 0; mem := ∅;
     env := [];
     trace := [EvMutexInit 0; EvKqueueEventInit 0;
               EvKevent [KevUser; KevSignal 1; KevSignal 2] (Done 0);
               EvSigpending (Done 0) 4] |}.

(** The world [signalfd_has_pending] leaves from signal 1 pending when
    signal 2 arrives just before the query. *)
Definition after_query_arrival : World :=
  {| pending := 3; observed := 3; ready := true; errno := 0; mem := ∅;
     env := []; trace := [EvSigpending (Done 0) 3] |}.

(** * Proofs *)

(** ** Basic facts *)

Lemma ctz_nonneg p : 0 <= ctz p.
Proof. induction p; simpl; lia. Qed.

Lemma ctz_testbit p : Pos.testbit p (Z.to_N (ctz p)) = true.
Proof.
  induction p as [q IH|q IH|]; simpl; try reflexivity.
  pose proof (ctz_nonneg q).
  replace (Z.to_N (1 + ctz q)) with (N.succ (Z.to_N (ctz q))) by lia.
  destruct (Z.to_N (ctz q)) as [|n] eqn:E; simpl in *.
  - exact IH.
  - rewrite Pos.pred_N_succ. exact IH.
Qed.

Lemma ctz_lowest p j : (j < Z.to_N (ctz p))%N -> Pos.testbit p j = false.
Proof.
  revert j. induction p as [q IH|q IH|]; simpl; intros j Hj; try lia.
  pose proof (ctz_nonneg q).
  destruct j as [|j]; [reflexivity|].
  apply IH. lia.
Qed.

Lemma lowest_signal_member x :
  x <> 0%N -> sigismember x (lowest_signal x) = true.
Proof.
  destruct x as [|p]; [congruence|]. intros _.
  unfold sigismember, lowest_signal. pose proof (ctz_nonneg p).
  replace (1 + ctz p - 1) with (ctz p) by lia.
  apply andb_true_intro. split; [apply Z.ltb_lt; lia|].
  simpl. apply ctz_testbit.
Qed.

Lemma lowest_signal_least x j :
  1 <= j < lowest_signal x -> sigismember x j = false.
Proof.
  destruct x as [|p]; simpl; [lia|]. intros Hj.
  unfold sigismember. apply andb_false_intro2. simpl.
  apply ctz_lowest. lia.
Qed.

Lemma pick_signal_member pref avail :
  avail <> 0%N -> sigismember avail (pick_signal pref avail) = true.
Proof.
  intros Hne. unfold pick_signal.
  destruct (sigismember avail pref) eqn:E; [exact E|].
  by apply lowest_signal_member.
Qed.

Lemma sigismember_land a b s :
  sigismember (N.land a b) s = sigismember a s && sigismember b s.
Proof.
  unfold sigismember. rewrite N.land_spec.
  destruct (0 <? s); simpl; [reflexivity|]. reflexivity.
Qed.

Global Arguments signalfd_ctx_clear_signal : simpl never.
Global Arguments signalfd_has_pending : simpl never.
Global Arguments init_kevs : simpl never.

(** Symbolic execution of the non-recursive calls: unfold them and split on
    what the script says. *)
Ltac unfold_calls :=
  unfold signalfd_ctx_poll, signalfd_ctx_read, signalfd_ctx_read_impl,
    signalfd_ctx_clear_signal, signalfd_ctx_terminate,
    signalfd_ctx_trigger_manually, signalfd_has_pending,
    kqueue_event_clear, kqueue_event_trigger, kqueue_event_terminate,
    kqueue_event_init, kevent, sigpending, sigtimedwait, thrsigdivert,
    kernel_sigwait, pthread_mutex_init, pthread_mutex_destroy,
    pthread_mutex_lock, pthread_mutex_unlock, sigandset, sigisemptyset,
    enter in *.

Ltac run_calls := unfold_calls; repeat (case_match; simplify_eq/=).

Ltac use_env :=
  repeat match goal with
         | H : env ?w = _ |- context [env ?w] => rewrite H
         end; simpl.

(** ** What the calls leave alone *)

Lemma has_pending_mem sfd w : mem (snd (signalfd_has_pending sfd w)) = mem w.
Proof. run_calls; reflexivity. Qed.

Lemma clear_signal_mem sfd wt w :
  mem (snd (signalfd_ctx_clear_signal sfd wt w)) = mem w.
Proof. run_calls; reflexivity. Qed.

Lemma thrsigdivert_mem mask ts w : mem (snd (thrsigdivert mask ts w)) = mem w.
Proof. run_calls; reflexivity. Qed.

Lemma claim_loop_mem fuel sfd w x w' :
  claim_loop fuel sfd w = Some (x, w') -> mem w' = mem w.
Proof.
  revert w. induction fuel as [|fuel IH]; intros w H; [discriminate|].
  simpl in H.
  pose proof (has_pending_mem sfd w) as Hq.
  destruct (signalfd_has_pending sfd w) as [[ec|[hp ps]] w1]; simpl in Hq.
  - simplify_eq. exact Hq.
  - destruct hp; simpl in H; [|simplify_eq; exact Hq].
    pose proof (thrsigdivert_mem (sigmask (ffsll ps)) (claim_timeout OpenBSD) w1) as Ht.
    destruct (thrsigdivert _ _ w1) as [s w2]; simpl in Ht.
    destruct (_ && _).
    + rewrite (IH _ H). congruence.
    + simplify_eq. congruence.
Qed.

Lemma sigismember_pos x s : sigismember x s = true -> 1 <= s.
Proof. unfold sigismember. intros [H _]%andb_prop. apply Z.ltb_lt in H. lia. Qed.

Lemma pick_signal_pos pref avail : (avail =? 0)%N = false -> 1 <= pick_signal pref avail.
Proof.
  intros H%N.eqb_neq. eapply sigismember_pos. by apply pick_signal_member.
Qed.

Lemma kernel_sigwait_errno set ts w r w' :
  kernel_sigwait set ts w = (r, w') -> ret_value r < 0 -> errno_set w'.
Proof.
  unfold errno_set, kernel_sigwait.
  destruct (enter w) as [e w1].
  destruct (fault e); [intros; simplify_eq/=; lia|].
  destruct (_ =? _)%N eqn:E.
  - intros ? _; simplify_eq/=. destruct (timespec_valid ts); unfold EAGAIN, EINVAL; lia.
  - intros ? Hs; simplify_eq/=. pose proof (pick_signal_pos (choice e) _ E). lia.
Qed.

Lemma has_pending_errno sfd w ec w' :
  signalfd_has_pending sfd w = (inl ec, w') -> 0 < ec.
Proof. run_calls; intros; simplify_eq/=; lia. Qed.

(** ** Signal sets *)

Lemma sigismember_bound n x s :
  (x < 2 ^ n)%N -> sigismember x s = true -> 1 <= s <= Z.of_N n.
Proof.
  intros Hx Hs. pose proof (sigismember_pos _ _ Hs) as Hpos.
  split; [exact Hpos|].
  unfold sigismember in Hs. apply andb_prop in Hs as [_ Hb].
  destruct (N.eq_dec x 0%N) as [->|Hne]; [by rewrite N.bits_0 in Hb|].
  destruct (N.lt_ge_cases (N.log2 x) (Z.to_N (s - 1))) as [Hlt|Hge].
  - by rewrite (N.bits_above_log2 _ _ Hlt) in Hb.
  - assert (N.log2 x < n)%N by (apply N.log2_lt_pow2; lia). lia.
Qed.

Lemma sigmask_member g s :
  1 <= g <= 32 -> sigismember (sigmask g) s = true -> s = g.
Proof.
  intros Hg Hs. pose proof (sigismember_pos _ _ Hs) as Hpos.
  unfold sigismember, sigmask in Hs. apply andb_prop in Hs as [_ Hb].
  rewrite N.shiftl_1_l in Hb.
  rewrite N.mod_small in Hb by (apply N.pow_lt_mono_r; lia).
  rewrite N.pow2_bits_eqb in Hb. apply N.eqb_eq in Hb. lia.
Qed.

Lemma ffsll_small x : (x < 2 ^ 32)%N -> ffsll x = lowest_signal x.
Proof.
  intros Hx. unfold ffsll. rewrite N.mod_small; [reflexivity|].
  eapply N.lt_trans; [exact Hx|]. apply N.pow_lt_mono_r; lia.
Qed.

Lemma land_bound a b n : (b < 2 ^ n)%N -> (N.land a b < 2 ^ n)%N.
Proof.
  intros Hb. destruct (N.eq_dec (N.land a b) 0%N) as [->|Hne]; [apply N.neq_0_lt_0, N.pow_nonzero; lia|].
  apply N.log2_lt_pow2; [lia|].
  destruct (N.eq_dec b 0%N) as [->|Hb0]; [by rewrite N.land_0_r in Hne|].
  assert (N.log2 b < n)%N by (apply N.log2_lt_pow2; lia).
  destruct (N.lt_ge_cases (N.log2 (N.land a b)) n) as [?|Hge]; [done|].
  pose proof (N.bit_log2 _ Hne) as Hbit.
  rewrite N.land_spec, (N.bits_above_log2 b), andb_false_r in Hbit by lia.
  discriminate.
Qed.

(** ** Which signals a call takes from the pending set *)

Lemma keeps_only_claims S w w' : keeps_pending w w' -> only_claims S w w'.
Proof. intros H i Hi Hn. rewrite (H i Hi) in Hn. discriminate. Qed.

Lemma only_claims_trans S w1 w2 w3 :
  only_claims S w1 w2 -> only_claims S w2 w3 -> only_claims S w1 w3.
Proof.
  intros H12 H23 i H1 H3.
  destruct (N.testbit (pending w2) i) eqn:E; [by apply (H23 i)|by apply (H12 i)].
Qed.

Lemma keeps_pending_trans w1 w2 w3 :
  keeps_pending w1 w2 -> keeps_pending w2 w3 -> keeps_pending w1 w3.
Proof. intros H12 H23 i H1. apply H23, H12, H1. Qed.

Ltac keep_bits :=
  intros i Hi; simpl; rewrite ?N.lor_spec, ?Hi; reflexivity.

Lemma has_pending_keeps sfd w : keeps_pending w (snd (signalfd_has_pending sfd w)).
Proof. run_calls; keep_bits. Qed.

Lemma clear_signal_keeps sfd wt w :
  keeps_pending w (snd (signalfd_ctx_clear_signal sfd wt w)).
Proof. run_calls; keep_bits. Qed.

(** A consuming wait hands out a pending member of its set and takes
    nothing else. *)
Lemma kernel_sigwait_claims set ts w r w' :
  kernel_sigwait set ts w = (r, w') ->
  only_claims set w w' /\
  forall s, r = Done s -> sigismember set s = true.
Proof.
  unfold kernel_sigwait. destruct (enter w) as [e w1] eqn:Hent.
  assert (keeps_pending w w1) as Hk.
  { unfold enter in Hent. destruct (env w); simplify_eq; keep_bits. }
  destruct (fault e).
  { intros; simplify_eq; split; [by apply keeps_only_claims|discriminate]. }
  destruct (_ =? _)%N eqn:E.
  { intros; simplify_eq; split; [by apply keeps_only_claims|discriminate]. }
  intros; simplify_eq.
  apply N.eqb_neq in E.
  pose proof (pick_signal_member (choice e) _ E) as Hm.
  rewrite sigismember_land in Hm. apply andb_prop in Hm as [Hm1 Hm2].
  split; [|intros; simplify_eq; exact Hm2].
  intros i Hi Hn; simpl in Hn. apply Hk in Hi.
  destruct (N.eq_dec i (Z.to_N (pick_signal (choice e) (N.land (pending w1) set) - 1)))
    as [->|Hne].
  - unfold sigismember in Hm2. by apply andb_prop in Hm2 as [_ ?].
  - rewrite N.clearbit_neq in Hn by done. congruence.
Qed.

(** ** One call at a time *)

Lemma events_of_trans w1 w2 w3 tr1 tr2 :
  events_of w1 w2 tr1 -> events_of w2 w3 tr2 -> events_of w1 w3 (tr1 ++ tr2).
Proof. unfold events_of. intros H1 H2. by rewrite H2, H1, app_assoc. Qed.

Lemma has_pending_spec sfd w r w' :
  signalfd_has_pending sfd w = (r, w') ->
  keeps_pending w w' /\ mem w' = mem w /\
  length (env w') = pred (length (env w)) /\
  match r with
  | inl ec => events_of w w' [EvSigpending (Failed ec) 0] /\ 0 < ec
  | inr (hp, ps) =>
      events_of w w' [EvSigpending (Done 0) (pending w')] /\
      ps = N.land (pending w') (sigs sfd) /\
      hp = negb (ps =? 0)%N
  end.
Proof.
  intros H. split; [|split; [|split]].
  - replace w' with (snd (signalfd_has_pending sfd w)) by (by rewrite H).
    apply has_pending_keeps.
  - replace w' with (snd (signalfd_has_pending sfd w)) by (by rewrite H).
    apply has_pending_mem.
  - revert H. run_calls; intros; simplify_eq/=; use_env; reflexivity.
  - revert H. unfold events_of.
    run_calls; intros; simplify_eq/=; repeat split; try reflexivity; lia.
Qed.

Lemma thrsigdivert_spec mask ts w s w' :
  thrsigdivert mask ts w = (s, w') ->
  only_claims mask w w' /\ mem w' = mem w /\
  length (env w') = pred (length (env w)) /\
  exists r, s = ret_value r /\ events_of w w' [EvThrsigdivert mask ts r] /\
    match r with
    | Done v => sigismember mask v = true
    | Failed e => errno w' = e /\ 0 < e
    end.
Proof.
  unfold thrsigdivert. destruct (kernel_sigwait mask ts w) as [r w1] eqn:Hk.
  intros; simplify_eq. pose proof (kernel_sigwait_claims _ _ _ _ _ Hk) as [Hc Hd].
  pose proof (kernel_sigwait_errno _ _ _ _ _ Hk) as He.
  split; [exact Hc|]. split; [|split].
  - revert Hk. run_calls; intros; simplify_eq/=; reflexivity.
  - revert Hk. run_calls; intros; simplify_eq/=; use_env; reflexivity.
  - exists r. split; [reflexivity|]. split.
    { unfold events_of; simpl; f_equal.
      revert Hk. run_calls; intros; simplify_eq/=; reflexivity. }
    destruct r as [v|e]; [by apply Hd|]. simpl in *.
    split; [|].
    + revert Hk. run_calls; intros; simplify_eq/=; reflexivity.
    + assert (errno w1 = e) as <-; [|apply He; lia].
      revert Hk. run_calls; intros; simplify_eq/=; reflexivity.
Qed.

(** ** The claim step as the specification words it *)

Lemma lowest_of_ffsll ps :
  ps <> 0%N -> (ps < 2 ^ 32)%N ->
  is_lowest_member ps (ffsll ps) /\ 1 <= ffsll ps <= 32 /\
  sigmask (ffsll ps) = single (ffsll ps).
Proof.
  intros Hne Hlt. rewrite ffsll_small by done.
  pose proof (lowest_signal_member _ Hne) as Hm.
  pose proof (sigismember_bound 32 _ _ Hlt Hm) as Hb.
  split; [split; [exact Hm|apply lowest_signal_least]|]. split; [lia|].
  unfold sigmask, single. rewrite N.shiftl_1_l.
  apply N.mod_small, N.pow_lt_mono_r; lia.
Qed.

Lemma only_claims_single sigs g w w' :
  sigismember sigs g = true -> only_claims (single g) w w' -> only_claims sigs w w'.
Proof.
  intros Hg H i Hi Hn. specialize (H i Hi Hn).
  unfold single in H. rewrite N.pow2_bits_eqb in H. apply N.eqb_eq in H.
  subst i. unfold sigismember in Hg. by apply andb_prop in Hg as [_ ?].
Qed.

Lemma nonblocking_claim_timeout p : nonblocking (claim_timeout p).
Proof. destruct p; [by left|by right]. Qed.

Lemma benign_test e :
  (e =? EINVAL) || (e =? EAGAIN) = true <-> benign e.
Proof. unfold benign. rewrite orb_true_iff, !Z.eqb_eq. tauto. Qed.

(** Whatever the fuel, a loop that leaves has made the calls the
    specification describes. *)
Lemma claim_loop_sound fuel sfd w x w' :
  (sigs sfd < 2 ^ 32)%N ->
  claim_loop fuel sfd w = Some (x, w') ->
  only_claims (sigs sfd) w w' /\ mem w' = mem w /\
  exists tr o, events_of w w' tr /\ claim_run (sigs sfd) tr o /\
    exit_matches (sigs sfd) x w' o.
Proof.
  intros Hwf. revert w.
  induction fuel as [|fuel IH]; intros w H; [discriminate|].
  simpl in H.
  destruct (signalfd_has_pending sfd w) as [r w1] eqn:Hq.
  apply has_pending_spec in Hq as (Hk1 & Hm1 & _ & Hr).
  destruct r as [ec|[hp ps]].
  { destruct Hr as [Hev Hpos]. simplify_eq.
    split; [by apply keeps_only_claims|]. split; [exact Hm1|].
    exists [EvSigpending (Failed ec) 0%N], (OsError ec).
    split; [exact Hev|]. split; [by constructor|]. right. by split. }
  destruct Hr as (Hev & Hps & Hhp).
  destruct hp; simpl in H.
  2:{ simplify_eq. symmetry in Hhp. apply negb_false_iff, N.eqb_eq in Hhp.
      split; [by apply keeps_only_claims|]. split; [exact Hm1|].
      exists [EvSigpending (Done 0) (pending w')], NoneReady.
      split; [exact Hev|]. split; [by constructor|]. by left. }
  symmetry in Hhp. apply negb_true_iff, N.eqb_neq in Hhp. subst ps.
  set (ps := N.land (pending w1) (sigs sfd)) in *.
  assert (ps < 2 ^ 32)%N as Hlt by (by apply land_bound).
  destruct (lowest_of_ffsll ps Hhp Hlt) as (Hlow & Hrange & Hmask).
  rewrite Hmask in H.
  assert (sigismember (sigs sfd) (ffsll ps) = true) as Hin.
  { destruct Hlow as [Hlow _]. unfold ps in Hlow at 1.
    rewrite sigismember_land in Hlow. by apply andb_prop in Hlow as [_ ?]. }
  destruct (thrsigdivert _ _ w1) as [s w2] eqn:Ht.
  apply thrsigdivert_spec in Ht as (Hc2 & Hm2 & _ & rt & Hs & Hev2 & Hrt).
  apply (only_claims_single _ _ _ _ Hin) in Hc2.
  assert (only_claims (sigs sfd) w w2) as Hc.
  { eapply only_claims_trans; [by apply keeps_only_claims|exact Hc2]. }
  pose proof (nonblocking_claim_timeout OpenBSD) as Hnb.
  destruct rt as [v|e]; simpl in Hs; subst s.
  { (* the wait handed out a signal *)
    pose proof (sigismember_pos _ _ Hrt) as Hpos.
    assert ((v <? 0) = false) as Hv by (apply Z.ltb_ge; lia).
    rewrite Hv in H. simpl in H. simplify_eq.
    split; [exact Hc|]. split; [congruence|].
    eexists _, (Claimed v). split; [exact (events_of_trans _ _ _ _ _ Hev Hev2)|].
    split; [by apply run_claim|]. right.
    split; [lia|]. split; [reflexivity|].
    assert (v = ffsll ps) as ->; [|exact Hin].
    apply sigmask_member; [exact Hrange|]. by rewrite Hmask. }
  destruct Hrt as [He Hpos]. rewrite He in H.
  change (-1 <? 0) with true in H. simpl in H.
  destruct ((e =? EINVAL) || (e =? EAGAIN)) eqn:Hben.
  - (* a benign failure: once more *)
    apply benign_test in Hben.
    destruct (IH _ H) as (Hc3 & Hm3 & tr & o & Hev3 & Hrun & Hex).
    split; [by eapply only_claims_trans|]. split; [congruence|].
    exists ([EvSigpending (Done 0) (pending w1)] ++
            [EvThrsigdivert (single (ffsll ps))
               (claim_timeout OpenBSD) (Failed e)] ++ tr), o.
    split; [|split; [|exact Hex]].
    + eapply events_of_trans; [exact Hev|]. by eapply events_of_trans.
    + simpl. by apply run_retry.
  - (* any other failure leaves the loop *)
    injection H as <- <-.
    assert (~ benign e) as Hnben.
    { intros Hb%benign_test. congruence. }
    split; [exact Hc|]. split; [congruence|].
    eexists _, (OsError e). split; [exact (events_of_trans _ _ _ _ _ Hev Hev2)|].
    split; [by apply run_error|]. left. rewrite He. split; [lia|]. by split.
Qed.

Lemma land_single_nonzero a g :
  sigismember a g = true -> (N.land a (single g) =? 0)%N = false.
Proof.
  intros [_ Hb]%andb_prop. apply N.eqb_neq. intros H0.
  assert (N.testbit (N.land a (single g)) (Z.to_N (g - 1)) = true) as Hbit.
  { rewrite N.land_spec, Hb. unfold single. rewrite N.pow2_bits_eqb.
    by rewrite N.eqb_refl. }
  rewrite H0, N.bits_0 in Hbit. discriminate.
Qed.

(** Once the script is over, one more turn of the loop is the last. *)
Lemma claim_loop_quiet fuel sfd w :
  (sigs sfd < 2 ^ 32)%N -> env w = [] ->
  is_Some (claim_loop (S fuel) sfd w).
Proof.
  intros Hwf Henv. simpl.
  unfold signalfd_has_pending, sigpending, enter. rewrite Henv. simpl.
  unfold sigandset, sigisemptyset.
  set (ps := N.land (pending w) (sigs sfd)).
  destruct (ps =? 0)%N eqn:E; simpl; [by eexists|].
  apply N.eqb_neq in E.
  assert (ps < 2 ^ 32)%N as Hlt by (by apply land_bound).
  destruct (lowest_of_ffsll ps E Hlt) as ([Hlow _] & _ & ->).
  unfold ps in Hlow at 1. rewrite sigismember_land in Hlow.
  apply andb_prop in Hlow as [Hlow _].
  pose proof (land_single_nonzero _ _ Hlow) as Hav.
  unfold thrsigdivert, kernel_sigwait, enter. simpl. rewrite Henv. simpl.
  rewrite Hav. simpl.
  pose proof (pick_signal_pos 0 _ Hav) as Hpos.
  assert ((pick_signal 0 (N.land (pending w) (single (ffsll ps))) <? 0) = false)
    as -> by (apply Z.ltb_ge; lia).
  by eexists.
Qed.

(** The loop leaves within one turn per step of the script, plus one. *)
Lemma claim_loop_terminates fuel sfd w :
  (sigs sfd < 2 ^ 32)%N -> (length (env w) < fuel)%nat ->
  is_Some (claim_loop fuel sfd w).
Proof.
  intros Hwf. revert w.
  induction fuel as [|fuel IH]; intros w Hlen; [lia|].
  destruct (env w) as [|e es] eqn:Henv; [by apply claim_loop_quiet|].
  simpl in Hlen. simpl.
  destruct (signalfd_has_pending sfd w) as [r w1] eqn:Hq.
  apply has_pending_spec in Hq as (_ & _ & Hl1 & _).
  rewrite Henv in Hl1. simpl in Hl1.
  destruct r as [ec|[[] ps]]; simpl; try by eexists.
  destruct (thrsigdivert _ _ w1) as [s w2] eqn:Ht.
  apply thrsigdivert_spec in Ht as (_ & _ & Hl2 & _).
  destruct (_ && _); [|by eexists].
  apply IH. lia.
Qed.

Lemma sigtimedwait_spec set ts w s w' :
  sigtimedwait set ts w = (s, w') ->
  only_claims set w w' /\ mem w' = mem w /\
  exists r, s = ret_value r /\ events_of w w' [EvSigtimedwait set ts r] /\
    match r with
    | Done v => sigismember set v = true
    | Failed e => errno w' = e /\ 0 < e
    end.
Proof.
  unfold sigtimedwait. destruct (kernel_sigwait set ts w) as [r w1] eqn:Hk.
  intros; simplify_eq. pose proof (kernel_sigwait_claims _ _ _ _ _ Hk) as [Hc Hd].
  pose proof (kernel_sigwait_errno _ _ _ _ _ Hk) as He.
  split; [exact Hc|]. split.
  { revert Hk. run_calls; intros; simplify_eq/=; reflexivity. }
  exists r. split; [reflexivity|]. split.
  { unfold events_of; simpl; f_equal.
    revert Hk. run_calls; intros; simplify_eq/=; reflexivity. }
  destruct r as [v|e]; [by apply Hd|]. simpl in *.
  assert (errno w1 = e) as Hee.
  { revert Hk. run_calls; intros; simplify_eq/=; reflexivity. }
  split; [exact Hee|]. rewrite <- Hee. apply He. lia.
Qed.

Lemma wf_sigset_openbsd s : wf_sigset OpenBSD s -> (s < 2 ^ 32)%N.
Proof. intros H. exact H. Qed.

Lemma to_uint32_signal p sigs s :
  wf_sigset p sigs -> sigismember sigs s = true -> to_uint32 s = Z.to_N s.
Proof.
  intros Hwf Hs. pose proof (sigismember_bound _ _ _ Hwf Hs) as Hb.
  unfold to_uint32. rewrite Z.mod_small; [reflexivity|].
  destruct p; simpl in Hb; lia.
Qed.

(** The claim step of [read] on either platform: the status is positive and
    nothing was written, or it is zero and a monitored signal was written
    through [ident]; only monitored signals left the pending set. *)
Lemma read_impl_spec p fuel sfd ident w ec w1 :
  wf_sigset p (sigs sfd) ->
  signalfd_ctx_read_impl p fuel sfd ident w = Some (ec, w1) ->
  only_claims (sigs sfd) w w1 /\
  ((0 < ec /\ mem w1 = mem w) \/
   (ec = 0 /\ exists s, sigismember (sigs sfd) s = true /\
                        mem w1 = <[ident := Z.to_N s]> (mem w))).
Proof.
  intros Hwf H. destruct p; simpl in H.
  - destruct (claim_loop fuel sfd w) as [[x w2]|] eqn:Hloop; [|discriminate].
    apply claim_loop_sound in Hloop as (Hc & Hm & tr & o & _ & _ & Hex);
      [|by apply wf_sigset_openbsd].
    destruct x as [ec'|s]; simpl in Hex.
    + simplify_eq. split; [exact Hc|]. left. split; [|exact Hm].
      destruct Hex as [[_ ->]|[_ ?]]; [unfold EAGAIN; lia|done].
    + destruct Hex as [(Hs & _ & Hpos)|(Hs & _ & Hin)].
      * apply Z.ltb_lt in Hs. rewrite Hs in H. simplify_eq.
        split; [exact Hc|]. left. by split.
      * assert ((s <? 0) = false) as Hs' by (apply Z.ltb_ge; lia).
        rewrite Hs' in H. simplify_eq.
        split; [exact Hc|]. right. split; [reflexivity|].
        exists s. split; [exact Hin|]. simpl.
        by rewrite (to_uint32_signal _ _ _ Hwf Hin), Hm.
  - destruct (sigtimedwait _ _ w) as [s w2] eqn:Hs.
    apply sigtimedwait_spec in Hs as (Hc & Hm & r & -> & _ & Hr).
    destruct r as [v|e]; simpl in H.
    + pose proof (sigismember_pos _ _ Hr) as Hpos.
      assert ((v <? 0) = false) as Hv by (apply Z.ltb_ge; lia).
      rewrite Hv in H. simplify_eq.
      split; [exact Hc|]. right. split; [reflexivity|].
      exists v. split; [exact Hr|]. simpl.
      by rewrite (to_uint32_signal _ _ _ Hwf Hr), Hm.
    + destruct Hr as [He Hpos]. simplify_eq.
      split; [exact Hc|]. left. by split.
Qed.

(** The claim step writes nothing unless it returns zero, whatever the
    signal set. *)
Lemma read_impl_mem p fuel sfd ident w ec w1 :
  signalfd_ctx_read_impl p fuel sfd ident w = Some (ec, w1) ->
  ec <> 0 -> mem w1 = mem w.
Proof.
  intros H Hne. destruct p; simpl in H.
  - destruct (claim_loop fuel sfd w) as [[x w2]|] eqn:Hloop; [|discriminate].
    apply claim_loop_mem in Hloop.
    destruct x as [ec'|s]; [by simplify_eq|].
    destruct (s <? 0); by simplify_eq.
  - destruct (sigtimedwait _ _ w) as [s w2] eqn:Hs.
    apply sigtimedwait_spec in Hs as (_ & Hm & _).
    destruct (s <? 0); by simplify_eq.
Qed.

(** ** Worlds to run the code on *)

(** ** terminate *)


(** ** read *)

(** C10: when [signalfd_ctx_read] returns a non-zero status (EAGAIN or an
    OS error) no cell of memory has changed, the one [ident] points to
    included; the only write through [ident] is on the path that returns
    zero. *)
Theorem read_writes_ident_only_on_success p fuel sfd ident w ec w' :
  signalfd_ctx_read p fuel sfd ident w = Some (ec, w') ->
  ec <> 0 -> mem w' = mem w.
Proof.
  unfold signalfd_ctx_read. intros H Hne.
  destruct (signalfd_ctx_read_impl _ _ _ _ _) as [[ec1 w1]|] eqn:Himpl;
    [|discriminate].
  apply read_impl_mem in Himpl; [|by simplify_eq].
  destruct (_ || _); simplify_eq; simpl.
  - by rewrite clear_signal_mem.
  - exact Himpl.
Qed.

Lemma read_writes_ident_only_on_success_witness :
  exists w',
    signalfd_ctx_read Generic 0 sfd12 64%N (world_with 4 []) = Some (EAGAIN, w') /\
    mem w' = mem (world_with 4 []).
Proof.
  eexists. split; [reflexivity|].
  apply (read_writes_ident_only_on_success Generic 0 sfd12 64%N
           (world_with 4 []) EAGAIN); [reflexivity|discriminate].
Defined.

(** C3: when [signalfd_ctx_read] returns zero, the cell [ident] points to
    holds a member of the monitor's signal set; and whatever it returns, every
    signal that left the process pending set during the call is a member of
    that set. *)
Theorem read_reports_only_monitored p fuel sfd ident w ec w' :
  wf_sigset p (sigs sfd) ->
  signalfd_ctx_read p fuel sfd ident w = Some (ec, w') ->
  only_claims (sigs sfd) w w' /\
  (ec = 0 ->
   exists s, sigismember (sigs sfd) s = true /\ mem w' !! ident = Some (Z.to_N s)).
Proof.
  unfold signalfd_ctx_read. intros Hwf H.
  destruct (signalfd_ctx_read_impl _ _ _ _ _) as [[ec1 w1]|] eqn:Himpl;
    [|discriminate].
  apply read_impl_spec in Himpl as [Hc Hres]; [|exact Hwf].
  assert (only_claims (sigs sfd) w w1) as Hc1 by exact Hc.
  split.
  - destruct (_ || _); simplify_eq; [|exact Hc1].
    eapply only_claims_trans; [exact Hc1|].
    apply keeps_only_claims. intros i Hi. simpl.
    by apply (clear_signal_keeps sfd false w1).
  - intros ->.
    assert (ec1 = 0) as -> by (destruct (_ || _); by simplify_eq).
    destruct Hres as [[Hpos _]|[_ (s & Hs & Hm)]]; [lia|].
    exists s. split; [exact Hs|]. simpl in H. simplify_eq. simpl.
    rewrite clear_signal_mem, Hm. apply lookup_insert_eq.
Qed.

Lemma read_reports_only_monitored_witness :
  exists w',
    signalfd_ctx_read OpenBSD 1 sfd12 64%N (world_with 6 []) = Some (0, w') /\
    only_claims 3 (world_with 6 []) w' /\
    (0 = 0 ->
     exists s, sigismember 3 s = true /\ mem w' !! 64%N = Some (Z.to_N s)).
Proof.
  eexists. split; [reflexivity|].
  apply (read_reports_only_monitored OpenBSD 1 sfd12 64%N (world_with 6 []) 0);
    [unfold wf_sigset; simpl; lia|reflexivity].
Defined.


(** C2, as the code has it: when the first call of the claim step is not
    failed by the environment and no monitored signal is pending as it
    runs, [signalfd_ctx_read] returns EAGAIN, has written nothing, and has
    run [signalfd_ctx_clear_signal] on the world the claim step left,
    between the claim call and the unlock. *)
Theorem read_none_pending p fuel sfd ident w :
  (0 < fuel)%nat ->
  fault (fst (enter w)) = None ->
  N.land (pending (snd (enter w))) (sigs sfd) = 0%N ->
  exists w1,
    events_of w w1
      [EvMutexLock; claim_call_none p sfd (pending (snd (enter w)))] /\
    signalfd_ctx_read p fuel sfd ident w =
      Some (EAGAIN,
            pthread_mutex_unlock (snd (signalfd_ctx_clear_signal sfd false w1))) /\
    mem w1 = mem w.
Proof.
  intros Hfuel Hfault Hnone.
  destruct fuel as [|fuel]; [lia|].
  unfold signalfd_ctx_read, signalfd_ctx_read_impl, events_of.
  destruct p; simpl.
  - unfold signalfd_has_pending, sigpending, sigandset, sigisemptyset.
    unfold enter in *. simpl.
    destruct (env w) as [|e es]; simpl in *.
    + rewrite Hnone. simpl. eexists. split; [|split; [reflexivity|]];
        simpl; rewrite <- ?app_assoc; reflexivity.
    + rewrite Hfault. simpl. rewrite Hnone. simpl.
      eexists. split; [|split; [reflexivity|]];
        simpl; rewrite <- ?app_assoc; reflexivity.
  - unfold sigtimedwait, kernel_sigwait.
    unfold enter in *. simpl.
    destruct (env w) as [|e es]; simpl in *.
    + rewrite Hnone. simpl. eexists. split; [|split; [reflexivity|]];
        simpl; rewrite <- ?app_assoc; reflexivity.
    + rewrite Hfault. simpl. rewrite Hnone. simpl.
      eexists. split; [|split; [reflexivity|]];
        simpl; rewrite <- ?app_assoc; reflexivity.
Qed.

Lemma read_none_pending_witness :
  exists w1,
    events_of (world_with 4 []) w1
      [EvMutexLock;
       claim_call_none Generic sfd12 (pending (snd (enter (world_with 4 []))))] /\
    signalfd_ctx_read Generic 1 sfd12 64%N (world_with 4 []) =
      Some (EAGAIN,
            pthread_mutex_unlock (snd (signalfd_ctx_clear_signal sfd12 false w1))) /\
    mem w1 = mem (world_with 4 []).
Proof.
  apply (read_none_pending Generic 1 sfd12 64%N (world_with 4 []));
    [lia|reflexivity|reflexivity].
Defined.

(** C2 as stated does not hold: no monitored signal is pending (only signal
    3 is), the pending-set query of the OpenBSD claim step fails, and
    [signalfd_ctx_read] returns that error, not EAGAIN, without calling
    [kqueue_event_clear]. *)
Lemma read_none_pending_query_fails :
  N.land (pending (world_with 4 [fails_efault])) (sigs sfd12) = 0%N /\
  signalfd_ctx_read OpenBSD 1 sfd12 64%N (world_with 4 [fails_efault]) =
    Some (14, {| pending := 4; observed := 3; ready := false; errno := 14;
                 mem := ∅; env := [];
                 trace := [EvMutexLock; EvSigpending (Failed 14) 0;
                           EvMutexUnlock] |}) /\
  14 <> EAGAIN.
Proof. split; [reflexivity|]. split; [reflexivity|discriminate]. Qed.

(** ** init *)

Lemma keeps_pending_nonempty w w' s :
  keeps_pending w w' -> N.land (pending w) s <> 0%N -> N.land (pending w') s <> 0%N.
Proof.
  intros Hk Hne H0. apply Hne. apply N.bits_inj_0. intros i.
  rewrite N.land_spec.
  destruct (N.testbit (pending w) i) eqn:E; [|reflexivity].
  apply Hk in E.
  assert (N.testbit (N.land (pending w') s) i = false) as Hb
    by (by rewrite H0, N.bits_0).
  by rewrite N.land_spec, E in Hb.
Qed.

Lemma advances_trans w1 w2 w3 : advances w1 w2 -> advances w2 w3 -> advances w1 w3.
Proof.
  intros [K1 [tr1 E1]] [K2 [tr2 E2]]. split; [by eapply keeps_pending_trans|].
  exists (tr1 ++ tr2). by eapply events_of_trans.
Qed.

Ltac advance :=
  split; [run_calls; keep_bits|unfold events_of; run_calls; eexists; reflexivity].

Lemma pthread_mutex_init_advances w : advances w (snd (pthread_mutex_init w)).
Proof. advance. Qed.

Lemma kqueue_event_init_advances w : advances w (snd (kqueue_event_init w)).
Proof. advance. Qed.

Lemma kqueue_event_trigger_advances w : advances w (snd (kqueue_event_trigger w)).
Proof. advance. Qed.

Lemma kevent_advances kevs w : advances w (snd (kevent kevs w)).
Proof. advance. Qed.

Lemma has_pending_advances sfd w : advances w (snd (signalfd_has_pending sfd w)).
Proof. advance. Qed.

(** A successful force-ready leaves the registration ready and is the last
    call in the trace. *)
Lemma kqueue_event_trigger_ok w w' :
  kqueue_event_trigger w = (0, w') ->
  ready w' = true /\ events_of w w' [EvKqueueEventTrigger 0].
Proof. unfold events_of. run_calls; intros; simplify_eq/=; by split. Qed.

(** What the first three calls of a successful [signalfd_ctx_init] leave
    behind for the query. *)
Lemma kqueue_event_init_ok w kevs w' :
  kqueue_event_init w = (0, kevs, w') -> kevs = [KevUser].
Proof. run_calls; intros; by simplify_eq/=. Qed.

Lemma kevent_ok kevs w n w' :
  kevent kevs w = (n, w') -> (n <? 0) = false ->
  observed w' = kev_signals kevs.
Proof. run_calls; intros; by simplify_eq/=. Qed.

Lemma has_pending_observed sfd w :
  observed (snd (signalfd_has_pending sfd w)) = observed w.
Proof. run_calls; reflexivity. Qed.

Lemma kqueue_event_trigger_observed w :
  observed (snd (kqueue_event_trigger w)) = observed w.
Proof. run_calls; reflexivity. Qed.

(** What a successful [signalfd_ctx_init] went through: four calls that
    reported no error, then a force-ready when the query found a monitored
    signal pending. *)
Lemma init_success p kq0 sigs0 w sfd w' :
  signalfd_ctx_init p kq0 sigs0 w = (0, sfd, w') ->
  sfd = {| kq := kq0; sigs := sigs0 |} /\
  exists w4 hp,
    advances w w4 /\
    observed w4 = kev_signals (init_kevs p sfd [KevUser]) /\
    hp = negb (N.land (pending w4) sigs0 =? 0)%N /\
    if hp then kqueue_event_trigger w4 = (0, w') else w' = w4.
Proof.
  unfold signalfd_ctx_init, signalfd_ctx_trigger_manually.
  set (sfd0 := {| kq := kq0; sigs := sigs0 |}).
  pose proof (pthread_mutex_init_advances w) as K1.
  destruct (pthread_mutex_init w) as [ec1 w1]; simpl in K1.
  pose proof (has_pending_errno sfd0) as Herr.
  destruct (ec1 =? 0) eqn:E1; simpl.
  2:{ intros; simplify_eq. }
  pose proof (kqueue_event_init_advances w1) as K2.
  pose proof (kqueue_event_init_ok w1) as Hkevs.
  destruct (kqueue_event_init w1) as [[ec2 kevs] w2]; simpl in K2.
  destruct (ec2 =? 0) eqn:E2; simpl.
  2:{ destruct (pthread_mutex_destroy w2). intros; simplify_eq. }
  apply Z.eqb_eq in E2. subst ec2. specialize (Hkevs _ _ eq_refl). subst kevs.
  pose proof (kevent_advances (init_kevs p sfd0 [KevUser]) w2) as K3.
  pose proof (kevent_ok (init_kevs p sfd0 [KevUser]) w2) as Hobs.
  assert (forall w3 n, kevent (init_kevs p sfd0 [KevUser]) w2
                       = (n, w3) -> (n <? 0) = true -> 0 < errno w3) as Hn.
  { intros w3 n. run_calls; intros; simplify_eq/=; lia. }
  destruct (kevent _ w2) as [n w3]; simpl in K3.
  specialize (Hn w3 n eq_refl). specialize (Hobs n w3 eq_refl).
  destruct (n <? 0) eqn:E3.
  { destruct (kqueue_event_terminate w3) as [? w5].
    destruct (pthread_mutex_destroy w5). intros; simplify_eq.
    specialize (Hn eq_refl). lia. }
  specialize (Hobs eq_refl).
  destruct (signalfd_has_pending _ w3) as [r w4] eqn:Hq.
  pose proof (has_pending_spec _ _ _ _ Hq) as (_ & _ & _ & Hr).
  pose proof (has_pending_advances sfd0 w3) as K4.
  pose proof (has_pending_observed sfd0 w3) as Hobs4.
  rewrite Hq in K4, Hobs4. simpl in K4, Hobs4.
  specialize (Herr w3).
  destruct r as [ec4|[hp ps]].
  { destruct (kqueue_event_terminate w4) as [? w5].
    destruct (pthread_mutex_destroy w5). intros; simplify_eq.
    specialize (Herr _ _ Hq). lia. }
  destruct Hr as (_ & Hps & Hhp). simpl in Hps. subst ps.
  assert (advances w w4) as K.
  { eapply advances_trans; [exact K1|].
    eapply advances_trans; [exact K2|].
    eapply advances_trans; [exact K3|exact K4]. }
  assert (observed w4 = kev_signals (init_kevs p sfd0 [KevUser])) as Hobs'
    by congruence.
  destruct hp.
  - destruct (kqueue_event_trigger w4) as [ec5 w5] eqn:Ht.
    destruct (ec5 =? 0) eqn:E5; simpl.
    + apply Z.eqb_eq in E5. subst ec5. intros; simplify_eq.
      split; [reflexivity|]. by exists w4, true.
    + destruct (kqueue_event_terminate w5) as [? w6].
      destruct (pthread_mutex_destroy w6). intros; simplify_eq.
  - intros; simplify_eq. split; [reflexivity|].
    by exists w', false.
Qed.

Lemma land_lor_zero p a s : N.land (N.lor p a) s = 0%N -> N.land p s = 0%N.
Proof.
  rewrite N.land_lor_distr_l. intros H. by apply N.lor_eq_0_iff in H as [? _].
Qed.

(** While a monitored signal is pending, the reconciliation step entered
    with [was_triggered] reports ready, whatever the environment does. *)
Lemma clear_signal_pending_true sfd w :
  N.land (pending w) (sigs sfd) <> 0%N ->
  fst (signalfd_ctx_clear_signal sfd true w) = true.
Proof.
  intros Hne. run_calls; try reflexivity; exfalso; apply Hne.
  all: repeat match goal with
         | H : negb _ = false |- _ => apply negb_false_iff in H
         | H : (_ =? _)%N = true |- _ => apply N.eqb_eq in H
         end.
  all: first [assumption | eapply land_lor_zero; eassumption].
Qed.

Lemma poll_pending_true sfd a w :
  N.land (pending w) (sigs sfd) <> 0%N ->
  mem (signalfd_ctx_poll sfd (Some a) w) !! a = Some POLLIN.
Proof.
  intros Hne. unfold signalfd_ctx_poll.
  assert (bool_decide (Some a <> None) = true) as -> by (by apply bool_decide_eq_true).
  pose proof (clear_signal_pending_true sfd (pthread_mutex_lock w) Hne) as Hb.
  destruct (signalfd_ctx_clear_signal _ _ _) as [b w1]. simpl in Hb. subst b.
  simpl. apply lookup_insert_eq.
Qed.

(** C4: when [signalfd_ctx_init] returns zero and a signal of the set was
    pending as it was called, its last call is a successful
    [kqueue_event_trigger], the registration is ready in the world it
    leaves, and [signalfd_ctx_poll] on that world stores POLLIN, whatever
    arrives or fails afterwards. *)
Theorem init_primes_ready p kq0 sigs0 w sfd w' :
  signalfd_ctx_init p kq0 sigs0 w = (0, sfd, w') ->
  N.land (pending w) sigs0 <> 0%N ->
  ready w' = true /\
  (exists tr, events_of w w' (tr ++ [EvKqueueEventTrigger 0])) /\
  forall a, mem (signalfd_ctx_poll sfd (Some a) w') !! a = Some POLLIN.
Proof.
  intros Hinit Hne.
  apply init_success in Hinit as (-> & w4 & hp & [Hk [tr Htr]] & _ & Hhp & Hlast).
  pose proof (keeps_pending_nonempty _ _ _ Hk Hne) as Hne4.
  apply N.eqb_neq in Hne4. rewrite Hne4 in Hhp. simpl in Hhp. subst hp.
  pose proof (kqueue_event_trigger_advances w4) as [Hk5 _].
  rewrite Hlast in Hk5. simpl in Hk5.
  apply kqueue_event_trigger_ok in Hlast as [Hready Hev].
  split; [exact Hready|]. split.
  - exists tr. by eapply events_of_trans.
  - intros a. apply poll_pending_true. simpl.
    apply N.eqb_neq in Hne4.
    exact (keeps_pending_nonempty _ _ _ Hk5 Hne4).
Qed.

Lemma init_primes_ready_witness :
  exists w',
    signalfd_ctx_init Generic 3 3 (world_with 1 []) = (0, sfd12, w') /\
    ready w' = true /\
    (exists tr, events_of (world_with 1 []) w' (tr ++ [EvKqueueEventTrigger 0])) /\
    forall a, mem (signalfd_ctx_poll sfd12 (Some a) w') !! a = Some POLLIN.
Proof.
  eexists. split; [reflexivity|].
  apply (init_primes_ready Generic 3 3%N (world_with 1 []) sfd12);
    [reflexivity|discriminate].
Defined.

(** ** The reconciliation step *)




Ltac nothing_pending :=
  repeat match goal with
         | H : negb _ = false |- _ => apply negb_false_iff in H
         | H : (_ =? _)%N = true |- _ => apply N.eqb_eq in H
         end.



Lemma lor_eqb_0 a b : (N.lor a b =? 0)%N = (a =? 0)%N && (b =? 0)%N.
Proof.
  destruct (N.eqb_spec a 0) as [->|Ha]; simpl; [reflexivity|].
  apply N.eqb_neq. intros H. by apply N.lor_eq_0_iff in H as [? _].
Qed.

Ltac use_script :=
  unfold fault_free, delivery_free in *;
  repeat match goal with
         | H : env ?w = _, F : Forall _ (env ?w) |- _ => rewrite H in F
         | F : Forall _ (_ :: _) |- _ =>
             let F1 := fresh in let F2 := fresh in
             apply Forall_cons in F as [F1 F2]
         end.

Ltac to_bool :=
  rewrite <- ?N.eqb_neq in *;
  rewrite ?N.land_lor_distr_l, ?lor_eqb_0 in *.

Ltac split_atoms :=
  repeat match goal with
         | |- context [(N.land ?x ?s =? 0)%N] => destruct (N.land x s =? 0)%N
         | H : context [(N.land ?x ?s =? 0)%N] |- _ => destruct (N.land x s =? 0)%N
         end.

(** C1, as the code has it: when the pending-set queries and the
    force-ready call of the step do not fail, the filter observes the
    monitor's set, and a step entered with [was_triggered] finds the
    registration ready if a monitored signal is pending, then after
    [signalfd_ctx_clear_signal], with signals arriving before any of its
    calls and after the last one, the registration is ready exactly when a
    monitored signal is pending. *)
Theorem clear_signal_reconciles sfd wt w late :
  observed w = sigs sfd ->
  fault_free (env w) ->
  (wt = true -> N.land (pending w) (sigs sfd) <> 0%N -> ready w = true) ->
  let w' := deliver late (snd (signalfd_ctx_clear_signal sfd wt w)) in
  ready w' = true <-> N.land (pending w') (sigs sfd) <> 0%N.
Proof.
  intros Hobs Hff Hin.
  run_calls; simpl; use_script; simplify_eq; rewrite ?Hobs.
  all: to_bool; split_atoms; simpl in *;
    try discriminate; try (destruct (ready _)); simpl in *; intuition congruence.
Qed.

Lemma clear_signal_reconciles_witness :
  let w' := deliver 0 (snd (signalfd_ctx_clear_signal sfd12 true
                              (world_with 4 [quiet; quiet; arrives2]))) in
  ready w' = true <-> N.land (pending w') (sigs sfd12) <> 0%N.
Proof.
  apply (clear_signal_reconciles sfd12 true (world_with 4 [quiet; quiet; arrives2]) 0).
  - reflexivity.
  - repeat constructor.
  - intros _ H. exfalso. apply H. reflexivity.
Defined.

(** C1 as stated does not hold: nothing monitored is pending, the recheck
    after the clear fails, and the step leaves the registration ready. *)
Lemma clear_signal_spurious_ready :
  signalfd_ctx_clear_signal sfd12 false (world_with 4 [quiet; fails_efault])
    = (true, after_failed_recheck) /\
  ~ (ready after_failed_recheck = true <->
     N.land (pending after_failed_recheck) (sigs sfd12) <> 0%N).
Proof.
  split; [vm_compute; reflexivity|].
  intros [H _]. by apply (H eq_refl).
Qed.

(** The skip-clear path leaves the registration as it found it: entered
    with [was_triggered] while signal 1 is pending and the registration is
    not ready, the step returns true and the registration is still not
    ready. *)
Example clear_signal_skip_clear_keeps_unset :
  signalfd_ctx_clear_signal sfd12 true (world_with 1 []) =
    (true, {| pending := 1; observed := 3; ready := false; errno := 0;
              mem := ∅; env := [];
              trace := [EvSigpending (Done 0) 1] |}).
Proof. vm_compute; reflexivity. Qed.

(** ** Waits *)

Lemma no_waits_waits_with ts0 tr : no_waits tr -> waits_with ts0 tr.
Proof.
  intros H. eapply Forall_impl; [exact H|].
  intros ev Hev ts Hts. by destruct ev.
Qed.

Lemma clear_signal_no_waits sfd wt w :
  exists tr, events_of w (snd (signalfd_ctx_clear_signal sfd wt w)) tr /\
             no_waits tr.
Proof.
  unfold events_of, no_waits.
  run_calls; eexists; (split; [rewrite <- ?app_assoc; reflexivity|]);
    repeat constructor.
Qed.

Lemma claim_loop_waits fuel sfd w x w' :
  claim_loop fuel sfd w = Some (x, w') ->
  exists tr, events_of w w' tr /\ waits_with (claim_timeout OpenBSD) tr.
Proof.
  revert w. induction fuel as [|fuel IH]; intros w H; [discriminate|].
  simpl in H.
  destruct (signalfd_has_pending sfd w) as [r w1] eqn:Hq.
  apply has_pending_spec in Hq as (_ & _ & _ & Hr).
  assert (exists q, events_of w w1 [q] /\ is_wait q = false) as (q & Hq & Hnw).
  { destruct r as [ec|[hp ps]]; destruct Hr as [Hr _]; by eexists. }
  assert (waits_with (claim_timeout OpenBSD) [q]) as Hwq.
  { apply no_waits_waits_with. by repeat constructor. }
  destruct r as [ec|[[] ps]]; simpl in H; try (simplify_eq; by eexists).
  destruct (thrsigdivert _ _ w1) as [s w2] eqn:Ht.
  apply thrsigdivert_spec in Ht as (_ & _ & _ & rt & _ & Hev2 & _).
  assert (waits_with (claim_timeout OpenBSD)
            ([q] ++ [EvThrsigdivert (sigmask (ffsll ps)) (claim_timeout OpenBSD) rt]))
    as Hw2.
  { apply Forall_app. split; [exact Hwq|].
    repeat constructor. intros ts Hts. by simplify_eq/=. }
  destruct (_ && _).
  - destruct (IH _ H) as (tr & Hev3 & Hw3).
    eexists. split.
    + eapply events_of_trans; [exact (events_of_trans _ _ _ _ _ Hq Hev2)|exact Hev3].
    + apply Forall_app. by split.
  - simplify_eq. eexists. split; [exact (events_of_trans _ _ _ _ _ Hq Hev2)|exact Hw2].
Qed.

Lemma read_impl_waits p fuel sfd ident w ec w' :
  signalfd_ctx_read_impl p fuel sfd ident w = Some (ec, w') ->
  exists tr, events_of w w' tr /\ waits_with (claim_timeout p) tr.
Proof.
  intros H. destruct p; simpl in H.
  - destruct (claim_loop fuel sfd w) as [[x w2]|] eqn:Hloop; [|discriminate].
    apply claim_loop_waits in Hloop as (tr & Hev & Hw).
    exists tr. split; [|exact Hw].
    destruct x as [ec'|s]; [by simplify_eq|].
    destruct (s <? 0); by simplify_eq.
  - destruct (sigtimedwait _ _ w) as [s w2] eqn:Hs.
    apply sigtimedwait_spec in Hs as (_ & _ & r & _ & Hev & _).
    eexists. split.
    + destruct (s <? 0); simplify_eq; exact Hev.
    + repeat constructor. intros ts Hts. by simplify_eq/=.
Qed.

Lemma read_returns p fuel sfd ident w :
  match p with
  | Generic => True
  | OpenBSD => wf_sigset OpenBSD (sigs sfd) /\ (length (env w) < fuel)%nat
  end ->
  is_Some (signalfd_ctx_read p fuel sfd ident w).
Proof.
  intros H. unfold signalfd_ctx_read.
  assert (is_Some (signalfd_ctx_read_impl p fuel sfd ident (pthread_mutex_lock w)))
    as [[ec w1] ->]; [|by eexists].
  destruct p.
  - destruct H as [Hwf Hlen]. simpl.
    destruct (claim_loop_terminates fuel sfd (pthread_mutex_lock w)
                (wf_sigset_openbsd _ Hwf) Hlen) as [[x w1] ->].
    destruct x; by eexists.
  - simpl. destruct (sigtimedwait _ _ _). by eexists.
Qed.

(** C5, as the code has it: the timespec of every wait [read] issues is
    [{0, 0}] on the generic variant and the invalid [{0, -1}] on OpenBSD,
    which the kernel refuses at once instead of sleeping; [poll] issues no
    wait; and [read] returns: always on the generic variant, within one
    turn of the loop per step of the script plus one on OpenBSD. *)
Theorem waits_never_sleep p fuel sfd ident revents w :
  nonblocking (claim_timeout p) /\
  (forall ec w',
     signalfd_ctx_read p fuel sfd ident w = Some (ec, w') ->
     exists tr, events_of w w' tr /\ waits_with (claim_timeout p) tr) /\
  (exists tr, events_of w (signalfd_ctx_poll sfd revents w) tr /\ no_waits tr) /\
  (match p with
   | Generic => True
   | OpenBSD => wf_sigset OpenBSD (sigs sfd) /\ (length (env w) < fuel)%nat
   end ->
   is_Some (signalfd_ctx_read p fuel sfd ident w)).
Proof.
  split; [apply nonblocking_claim_timeout|]. split; [|split].
  - intros ec w' H. unfold signalfd_ctx_read in H.
    destruct (signalfd_ctx_read_impl _ _ _ _ _) as [[ec1 w1]|] eqn:Himpl;
      [|discriminate].
    apply read_impl_waits in Himpl as (tr1 & Hev1 & Hw1).
    destruct (clear_signal_no_waits sfd false w1) as (tr2 & Hev2 & Hw2).
    apply (no_waits_waits_with (claim_timeout p)) in Hw2.
    assert (events_of w (pthread_mutex_lock w) [EvMutexLock]) as Hlock
      by reflexivity.
    destruct (_ || _); simplify_eq.
    + exists ([EvMutexLock] ++ tr1 ++ tr2 ++ [EvMutexUnlock]). split.
      * eapply events_of_trans; [exact Hlock|].
        eapply events_of_trans; [exact Hev1|].
        eapply events_of_trans; [exact Hev2|]. reflexivity.
      * repeat (apply Forall_app; split); try done;
          repeat constructor; intros ts Hts; discriminate Hts.
    + exists ([EvMutexLock] ++ tr1 ++ [EvMutexUnlock]). split.
      * eapply events_of_trans; [exact Hlock|].
        eapply events_of_trans; [exact Hev1|]. reflexivity.
      * repeat (apply Forall_app; split); try done;
          repeat constructor; intros ts Hts; discriminate Hts.
  - unfold signalfd_ctx_poll.
    destruct (clear_signal_no_waits sfd (bool_decide (revents <> None))
                (pthread_mutex_lock w)) as (tr & Hev & Hw).
    destruct (signalfd_ctx_clear_signal _ _ _) as [b w1]. simpl in Hev.
    exists ([EvMutexLock] ++ tr ++ [EvMutexUnlock]). split.
    + eapply (events_of_trans w (pthread_mutex_lock w)); [reflexivity|].
      eapply events_of_trans; [exact Hev|]. by destruct revents.
    + repeat (apply Forall_app; split); try done; by repeat constructor.
  - apply read_returns.
Qed.

Lemma waits_never_sleep_witness :
  nonblocking (claim_timeout OpenBSD) /\
  (forall ec w',
     signalfd_ctx_read OpenBSD 3 sfd12 64%N (world_with 1 retry_script)
       = Some (ec, w') ->
     exists tr, events_of (world_with 1 retry_script) w' tr /\
                waits_with (claim_timeout OpenBSD) tr) /\
  (exists tr,
     events_of (world_with 1 retry_script)
       (signalfd_ctx_poll sfd12 (Some 64%N) (world_with 1 retry_script)) tr /\
     no_waits tr) /\
  is_Some (signalfd_ctx_read OpenBSD 3 sfd12 64%N (world_with 1 retry_script)).
Proof.
  pose proof (waits_never_sleep OpenBSD 3 sfd12 64%N (Some 64%N)
                (world_with 1 retry_script)) as (H1 & H2 & H3 & H4).
  split; [exact H1|]. split; [exact H2|]. split; [exact H3|].
  apply H4. split; [unfold wf_sigset; simpl; lia|simpl; lia].
Defined.

(** C5 as stated does not hold: on OpenBSD the wait [read] issues has the
    timespec [{0, -1}], not the zero timeout. *)
Lemma openbsd_wait_timeout_not_zero :
  signalfd_ctx_read OpenBSD 1 sfd12 64%N (world_with 1 []) =
    Some (0, after_openbsd_claim) /\
  ~ waits_with {| tv_sec := 0; tv_nsec := 0 |} (trace after_openbsd_claim).
Proof.
  split; [vm_compute; reflexivity|].
  intros H. unfold waits_with in H. rewrite Forall_forall in H.
  specialize (H (EvThrsigdivert 1 {| tv_sec := 0; tv_nsec := -1 |} (Done 1))).
  assert ({| tv_sec := 0; tv_nsec := -1 |} = {| tv_sec := 0; tv_nsec := 0 |})
    as Heq; [|discriminate Heq].
  apply H; [|reflexivity]. simpl. do 2 right. by left.
Qed.

(** ** poll *)

Ltac quiet_arrivals :=
  repeat match goal with
         | H : arrive ?e = 0%N |- _ => rewrite ?H in *; clear H
         end;
  rewrite ?N.lor_0_r in *.

Ltac split_events :=
  repeat match goal with
         | H : Forall _ (_ :: _) |- _ =>
             let F1 := fresh in let F2 := fresh in
             apply Forall_cons in H as [F1 F2]
         end.

Lemma poll_once sfd a w :
  delivery_free (env w) ->
  exists tr,
    events_of w (signalfd_ctx_poll sfd (Some a) w) tr /\
    pending (signalfd_ctx_poll sfd (Some a) w) = pending w /\
    delivery_free (env (signalfd_ctx_poll sfd (Some a) w)) /\
    (no_failed_query tr ->
     mem (signalfd_ctx_poll sfd (Some a) w) !! a = Some (readiness sfd w)).
Proof.
  intros Hdf. unfold signalfd_ctx_poll, readiness, events_of, no_failed_query.
  assert (bool_decide (Some a <> None) = true) as -> by (by apply bool_decide_eq_true).
  run_calls; try congruence; use_script; simplify_eq/=.
  all: eexists; (split; [rewrite <- ?app_assoc; reflexivity|]).
  all: quiet_arrivals; use_env; (split; [reflexivity|]);
    (split; [first [assumption|constructor]|]).
  all: intros Hnf; simpl in Hnf; rewrite lookup_insert_eq;
    try reflexivity; exfalso; split_events; simpl in *; try discriminate.
  all: repeat match goal with
         | H : (_ =? _)%N = _ |- _ => rewrite H in *
         end; simpl in *; discriminate.
Qed.

Lemma poll_keeps sfd revents w :
  keeps_pending w (signalfd_ctx_poll sfd revents w).
Proof. destruct revents; run_calls; keep_bits. Qed.

Lemma poll_repeatedly_spec n sfd a w rs w' :
  poll_repeatedly n sfd a w = (rs, w') ->
  delivery_free (env w) ->
  exists tr,
    events_of w w' tr /\ pending w' = pending w /\
    (no_failed_query tr -> Forall (fun r => r = Some (readiness sfd w)) rs).
Proof.
  revert w rs w'. induction n as [|n IH]; intros w rs w' H Hdf; simpl in H.
  - simplify_eq. exists []. split; [unfold events_of; by rewrite app_nil_r|].
    split; [reflexivity|]. intros _. constructor.
  - destruct (poll_once sfd a w Hdf) as (tr1 & Hev1 & Hp1 & Hdf1 & Hres).
    destruct (poll_repeatedly n sfd a _) as [rs2 w2] eqn:Hrest.
    destruct (IH _ _ _ Hrest Hdf1) as (tr2 & Hev2 & Hp2 & Hres2).
    simplify_eq. exists (tr1 ++ tr2).
    split; [by eapply events_of_trans|]. split; [congruence|].
    intros [Hn1 Hn2]%Forall_app. constructor; [by apply Hres|].
    assert (readiness sfd w = readiness sfd (signalfd_ctx_poll sfd (Some a) w))
      as -> by (unfold readiness; by rewrite Hp1).
    by apply Hres2.
Qed.

(** C7, as the code has it: [signalfd_ctx_poll] never takes a signal from
    the process pending set; and when no signal is delivered and no
    pending-set query fails, any number of calls in a row store the same
    value through [revents], POLLIN if a monitored signal is pending and
    zero if not, and leave the pending set as it was. *)
Theorem poll_is_idempotent sfd a w :
  (forall revents, keeps_pending w (signalfd_ctx_poll sfd revents w)) /\
  (forall n rs w' tr,
     poll_repeatedly n sfd a w = (rs, w') ->
     events_of w w' tr ->
     delivery_free (env w) ->
     no_failed_query tr ->
     Forall (fun r => r = Some (readiness sfd w)) rs /\ pending w' = pending w).
Proof.
  split; [intros revents; apply poll_keeps|].
  intros n rs w' tr H Hev Hdf Hnf.
  destruct (poll_repeatedly_spec _ _ _ _ _ _ H Hdf) as (tr' & Hev' & Hp & Hres).
  unfold events_of in *. rewrite Hev' in Hev. apply app_inv_head in Hev. subst tr'.
  split; [by apply Hres|exact Hp].
Qed.

Lemma poll_is_idempotent_witness :
  Forall (fun r => r = Some (readiness sfd12 (world_with 5 [])))
    (fst (poll_repeatedly 3 sfd12 64%N (world_with 5 []))) /\
  pending (snd (poll_repeatedly 3 sfd12 64%N (world_with 5 [])))
    = pending (world_with 5 []).
Proof.
  apply (proj2 (poll_is_idempotent sfd12 64%N (world_with 5 [])) 3%nat _ _
           (trace (snd (poll_repeatedly 3 sfd12 64%N (world_with 5 []))))).
  - by destruct (poll_repeatedly 3 sfd12 64%N (world_with 5 [])).
  - reflexivity.
  - constructor.
  - vm_compute. repeat constructor.
Defined.

(** C7 as stated does not hold: no signal is delivered and nothing is
    read, yet the first [poll], whose pending-set query fails, stores
    POLLIN and the second stores zero. *)
Lemma poll_differs_after_failed_query :
  delivery_free [fails_efault] /\
  fst (poll_repeatedly 2 sfd12 64%N (world_with 4 [fails_efault]))
    = [Some POLLIN; Some 0%N].
Proof. split; [repeat constructor|vm_compute; reflexivity]. Qed.

(** ** What init leaves for the reconciliation step *)

Lemma kev_signals_bit kevs i :
  N.testbit (kev_signals kevs) i = true <->
  exists s, KevSignal s ∈ kevs /\ Z.to_N (s - 1) = i.
Proof.
  induction kevs as [|k kevs IH]; simpl.
  - split; [by destruct i|].
    intros (s & Hs & _). by apply elem_of_nil in Hs.
  - destruct k as [|s0].
    + rewrite IH. split; intros (s & Hs & Hi); exists s; split; try done.
      * by right.
      * apply elem_of_cons in Hs as [Hs|Hs]; [discriminate|exact Hs].
    + rewrite N.lor_spec, orb_true_iff, N.shiftl_1_l, N.pow2_bits_eqb, N.eqb_eq, IH.
      split.
      * intros [Hi|(s & Hs & Hi)]; [exists s0|exists s]; split; try done;
          [by left|by right].
      * intros (s & Hs & Hi). apply elem_of_cons in Hs as [Hs|Hs].
        -- left. by simplify_eq.
        -- right. by exists s.
Qed.

(** The batch request of [signalfd_ctx_init] has one EVFILT_SIGNAL entry per
    member of the set, and nothing else is observed. *)
Lemma init_kevs_observes p sfd :
  wf_sigset p (sigs sfd) ->
  kev_signals (init_kevs p sfd [KevUser]) = sigs sfd.
Proof.
  intros Hwf. apply N.bits_inj_iff. intros i. apply eq_true_iff_eq.
  rewrite kev_signals_bit. unfold init_kevs. split.
  - intros (s & Hs & Hi).
    apply elem_of_app in Hs as [Hs|Hs].
    { apply list_elem_of_singleton in Hs. discriminate. }
    apply list_elem_of_fmap in Hs as (s' & Heq & Hs'). simplify_eq.
    apply list_elem_of_filter in Hs' as [Hm _].
    unfold sigismember in Hm. by apply andb_prop in Hm as [_ ?].
  - intros Hbit. exists (Z.of_N i + 1).
    assert (sigismember (sigs sfd) (Z.of_N i + 1) = true) as Hm.
    { unfold sigismember. apply andb_true_intro. split; [apply Z.ltb_lt; lia|].
      by replace (Z.to_N (Z.of_N i + 1 - 1)) with i by lia. }
    split; [|lia].
    apply elem_of_app. right. apply list_elem_of_fmap.
    exists (Z.of_N i + 1). split; [reflexivity|].
    apply list_elem_of_filter. split; [exact Hm|].
    pose proof (sigismember_bound _ _ _ Hwf Hm) as Hb.
    apply elem_of_seqZ. destruct p; simpl in *; lia.
Qed.

(** After a successful [signalfd_ctx_init] the filter observes exactly the
    monitor's set, and the registration is ready if a monitored signal is
    pending: what the reconciliation step asks of the world it starts
    from. *)
Lemma init_establishes_cache p kq0 sigs0 w sfd w' :
  wf_sigset p sigs0 ->
  signalfd_ctx_init p kq0 sigs0 w = (0, sfd, w') ->
  observed w' = sigs sfd /\
  (N.land (pending w') (sigs sfd) <> 0%N -> ready w' = true).
Proof.
  intros Hwf Hinit.
  apply init_success in Hinit as (-> & w4 & hp & _ & Hobs & Hhp & Hlast).
  rewrite init_kevs_observes in Hobs by exact Hwf. simpl in *.
  destruct hp.
  - pose proof (kqueue_event_trigger_observed w4) as Hobs5.
    rewrite Hlast in Hobs5. simpl in Hobs5.
    apply kqueue_event_trigger_ok in Hlast as [Hready _].
    split; [congruence|done].
  - subst w'. split; [exact Hobs|].
    symmetry in Hhp. apply negb_false_iff, N.eqb_eq in Hhp. done.
Qed.

(** * Further properties of the code *)

(** ** poll *)

Lemma clear_signal_false_none_pending sfd wt w w' :
  signalfd_ctx_clear_signal sfd wt w = (false, w') ->
  N.land (pending w') (sigs sfd) = 0%N.
Proof.
  run_calls; intros; simplify_eq/=; nothing_pending; assumption.
Qed.

(** [signalfd_ctx_poll] with a non-null [revents] changes one cell of
    memory, the one [revents] points to, and stores POLLIN or zero there:
    POLLIN whenever a monitored signal was pending as it was called, whatever
    arrives or fails meanwhile; zero only if no monitored signal is pending
    as it returns. *)
Theorem poll_reports sfd a w :
  exists v,
    mem (signalfd_ctx_poll sfd (Some a) w) = <[a := v]> (mem w) /\
    (v = POLLIN \/ v = 0%N) /\
    (N.land (pending w) (sigs sfd) <> 0%N -> v = POLLIN) /\
    (v = 0%N ->
     N.land (pending (signalfd_ctx_poll sfd (Some a) w)) (sigs sfd) = 0%N).
Proof.
  unfold signalfd_ctx_poll.
  assert (bool_decide (Some a <> None) = true) as -> by (by apply bool_decide_eq_true).
  pose proof (clear_signal_mem sfd true (pthread_mutex_lock w)) as Hm.
  pose proof (clear_signal_pending_true sfd (pthread_mutex_lock w)) as Hp.
  pose proof (clear_signal_false_none_pending sfd true (pthread_mutex_lock w)) as Hf.
  destruct (signalfd_ctx_clear_signal _ _ _) as [b w1]. simpl in *.
  exists (if b then POLLIN else 0%N). rewrite Hm.
  split; [reflexivity|]. split; [destruct b; [by left|by right]|]. split.
  - intros Hne. by rewrite (Hp Hne).
  - destruct b; [discriminate|]. intros _. by apply Hf.
Qed.

(** ** terminate *)

(** C8: [signalfd_ctx_terminate] calls [kqueue_event_terminate] on the
    world it is given and then [pthread_mutex_destroy] on the world that
    call leaves, whatever the first returned; each call returns the error
    the environment fails it with (zero if none); the result is the first
    call's error if it failed, else the second's, zero when both succeed.
    When the first call succeeds the signals are no longer observed and
    the registration is not ready. *)
Theorem terminate_attempts_both sfd w :
  let r1 := step_error (hd quiet (env w)) in
  let r2 := step_error (hd quiet (tl (env w))) in
  exists w1,
    kqueue_event_terminate w = (r1, w1) /\
    pthread_mutex_destroy w1 = (r2, snd (signalfd_ctx_terminate sfd w)) /\
    events_of w (snd (signalfd_ctx_terminate sfd w))
      [EvKqueueEventTerminate r1; EvMutexDestroy r2] /\
    fst (signalfd_ctx_terminate sfd w) = (if r1 =? 0 then r2 else r1) /\
    (r1 <> 0 -> fst (signalfd_ctx_terminate sfd w) = r1) /\
    (r1 = 0 -> r2 = 0 -> fst (signalfd_ctx_terminate sfd w) = 0) /\
    (r1 = 0 ->
     observed (snd (signalfd_ctx_terminate sfd w)) = 0%N /\
     ready (snd (signalfd_ctx_terminate sfd w)) = false).
Proof.
  unfold signalfd_ctx_terminate, kqueue_event_terminate, pthread_mutex_destroy,
    enter, events_of, step_error.
  destruct w as [pe ob re er me es tr]; simpl.
  destruct es as [|[a1 [f1|] c1] [|[a2 [f2|] c2] es]]; simpl; eexists;
    repeat split; simpl; rewrite <- ?app_assoc; try reflexivity;
    try done; intros; by rewrite ?N.land_0_r.
Qed.

Lemma terminate_attempts_both_witness :
  fst (signalfd_ctx_terminate sfd12 (world_with 1 [fails_efault; fails_ebusy])) = 14 /\
  events_of (world_with 1 [fails_efault; fails_ebusy])
    (snd (signalfd_ctx_terminate sfd12 (world_with 1 [fails_efault; fails_ebusy])))
    [EvKqueueEventTerminate 14; EvMutexDestroy 16].
Proof.
  destruct (terminate_attempts_both sfd12 (world_with 1 [fails_efault; fails_ebusy]))
    as (w1 & _ & _ & Hev & _ & Hfirst & _).
  split; [apply Hfirst; discriminate|exact Hev].
Defined.

(** ** When the environment keeps quiet *)

Lemma enter_calm w :
  calm (env w) ->
  enter w = (hd quiet (env w), set_env (tl (env w)) w) /\
  fault (hd quiet (env w)) = None /\ calm (tl (env w)).
Proof.
  intros [Hf Hd]. destruct w as [pe ob re er me es tr]. simpl in *.
  unfold enter. simpl. destruct es as [|e es]; simpl.
  - repeat split; constructor.
  - apply Forall_cons in Hf as [Hf1 Hf2]. apply Forall_cons in Hd as [Hd1 Hd2].
    split; [|by repeat split].
    unfold deliver, set_env, set_ready, set_pending. simpl.
    by rewrite Hd1, N.lor_0_r, N.land_0_l, orb_false_r.
Qed.

Lemma has_pending_calm sfd w :
  calm (env w) ->
  signalfd_has_pending sfd w =
    (inr (negb (N.land (pending w) (sigs sfd) =? 0)%N,
          N.land (pending w) (sigs sfd)),
     log (EvSigpending (Done 0) (pending w)) (set_env (tl (env w)) w)).
Proof.
  intros Hc. unfold signalfd_has_pending, sigpending.
  destruct (enter_calm w Hc) as (-> & -> & _). reflexivity.
Qed.

Lemma kernel_sigwait_calm set ts w :
  calm (env w) ->
  kernel_sigwait set ts w =
    if (N.land (pending w) set =? 0)%N
    then (Failed (if timespec_valid ts then EAGAIN else EINVAL),
          set_errno (if timespec_valid ts then EAGAIN else EINVAL)
            (set_env (tl (env w)) w))
    else (Done (pick_signal (choice (hd quiet (env w))) (N.land (pending w) set)),
          set_pending
            (N.clearbit (pending w)
               (Z.to_N (pick_signal (choice (hd quiet (env w)))
                          (N.land (pending w) set) - 1)))
            (set_env (tl (env w)) w)).
Proof.
  intros Hc. unfold kernel_sigwait.
  destruct (enter_calm w Hc) as (-> & -> & _). reflexivity.
Qed.

Lemma kqueue_event_trigger_calm w :
  calm (env w) ->
  kqueue_event_trigger w =
    (0, log (EvKqueueEventTrigger 0) (set_ready true (set_env (tl (env w)) w))).
Proof.
  intros Hc. unfold kqueue_event_trigger.
  destruct (enter_calm w Hc) as (-> & -> & _). reflexivity.
Qed.

Lemma kqueue_event_clear_calm w :
  calm (env w) ->
  kqueue_event_clear w =
    log EvKqueueEventClear (set_ready false (set_env (tl (env w)) w)).
Proof.
  intros Hc. unfold kqueue_event_clear.
  destruct (enter_calm w Hc) as (-> & _ & _). reflexivity.
Qed.

Lemma calm_tl es : calm es -> calm (tl es).
Proof.
  intros [Hf Hd]. destruct es as [|e es]; [by split|].
  apply Forall_cons in Hf as [_ ?]. apply Forall_cons in Hd as [_ ?]. by split.
Qed.

Ltac calm_done :=
  eexists; (split; [reflexivity|]); simpl;
  (split; [reflexivity|]); (split; [reflexivity|]); (split; [reflexivity|]);
  (split; [assumption|reflexivity]).

(** What the reconciliation step does when the environment keeps quiet:
    it returns whether a monitored signal is pending, and leaves the
    registration ready exactly then, unless it took the skip-clear path,
    which leaves the registration alone. *)
Lemma clear_signal_calm sfd wt w :
  calm (env w) ->
  exists w',
    signalfd_ctx_clear_signal sfd wt w =
      (negb (N.land (pending w) (sigs sfd) =? 0)%N, w') /\
    pending w' = pending w /\ mem w' = mem w /\ observed w' = observed w /\
    calm (env w') /\
    ready w' = if wt && negb (N.land (pending w) (sigs sfd) =? 0)%N
               then ready w
               else negb (N.land (pending w) (sigs sfd) =? 0)%N.
Proof.
  intros Hc. unfold signalfd_ctx_clear_signal, signalfd_ctx_trigger_manually.
  pose proof (calm_tl _ Hc) as Hc1. pose proof (calm_tl _ Hc1) as Hc2.
  pose proof (calm_tl _ Hc2) as Hc3. pose proof (calm_tl _ Hc3) as Hc4.
  destruct wt; simpl.
  - rewrite has_pending_calm by exact Hc.
    destruct (N.land (pending w) (sigs sfd) =? 0)%N eqn:E; simpl.
    + rewrite kqueue_event_clear_calm by exact Hc1.
      rewrite has_pending_calm by exact Hc2. simpl. rewrite E. simpl.
      calm_done.
    + calm_done.
  - rewrite kqueue_event_clear_calm by exact Hc.
    rewrite has_pending_calm by exact Hc1. simpl.
    destruct (N.land (pending w) (sigs sfd) =? 0)%N eqn:E; simpl.
    + calm_done.
    + rewrite kqueue_event_trigger_calm by exact Hc2.
      calm_done.
Qed.

Lemma openbsd_wait_calm sfd w avail :
  (sigs sfd < 2 ^ 32)%N ->
  calm (env w) ->
  avail = N.land (pending w) (sigs sfd) ->
  avail <> 0%N ->
  thrsigdivert (sigmask (ffsll avail)) (claim_timeout OpenBSD) w =
    (lowest_signal avail,
     log (EvThrsigdivert (single (lowest_signal avail)) (claim_timeout OpenBSD)
            (Done (lowest_signal avail)))
       (set_pending (N.clearbit (pending w) (Z.to_N (lowest_signal avail - 1)))
          (set_env (tl (env w)) w))) /\
  1 <= lowest_signal avail <= 32.
Proof.
  intros Hwf Hc -> Hne.
  set (avail := N.land (pending w) (sigs sfd)) in *.
  assert (avail < 2 ^ 32)%N as Hlt by (by apply land_bound).
  destruct (lowest_of_ffsll avail Hne Hlt) as ([Hlow _] & Hrange & Hmask).
  rewrite Hmask. rewrite ffsll_small in * by exact Hlt.
  split; [|exact Hrange].
  unfold thrsigdivert. rewrite kernel_sigwait_calm by exact Hc.
  assert (sigismember (pending w) (lowest_signal avail) = true) as Hp.
  { unfold avail in Hlow at 1. rewrite sigismember_land in Hlow.
    by apply andb_prop in Hlow as [? _]. }
  pose proof (land_single_nonzero _ _ Hp) as Hav. rewrite Hav.
  assert (pick_signal (choice (hd quiet (env w)))
            (N.land (pending w) (single (lowest_signal avail)))
          = lowest_signal avail) as ->; [|reflexivity].
  apply N.eqb_neq in Hav.
  pose proof (pick_signal_member (choice (hd quiet (env w))) _ Hav) as Hm.
  rewrite sigismember_land in Hm. apply andb_prop in Hm as [_ Hm].
  apply sigmask_member; [exact Hrange|]. by rewrite Hmask.
Qed.

(** The claim step when the environment keeps quiet. *)
Lemma read_impl_calm p fuel sfd ident w :
  calm (env w) ->
  wf_sigset p (sigs sfd) ->
  let avail := N.land (pending w) (sigs sfd) in
  let s := claimed_signal p (choice (hd quiet (env w))) avail in
  exists w1,
    signalfd_ctx_read_impl p (S fuel) sfd ident w =
      Some (if (avail =? 0)%N then EAGAIN else 0, w1) /\
    calm (env w1) /\ observed w1 = observed w /\ ready w1 = ready w /\
    pending w1 = (if (avail =? 0)%N then pending w
                  else N.clearbit (pending w) (Z.to_N (s - 1))) /\
    mem w1 = (if (avail =? 0)%N then mem w
              else <[ident := Z.to_N s]> (mem w)).
Proof.
  intros Hc Hwf avail s.
  pose proof (calm_tl _ Hc) as Hc1. pose proof (calm_tl _ Hc1) as Hc2.
  destruct p; unfold signalfd_ctx_read_impl.
  - simpl claim_loop. rewrite has_pending_calm by exact Hc. fold avail.
    destruct (avail =? 0)%N eqn:E; simpl.
    + eexists. split; [reflexivity|]. by repeat (split; [done|]).
    + apply N.eqb_neq in E.
      set (w1 := log _ _).
      change {| tv_sec := 0; tv_nsec := -1 |} with (claim_timeout OpenBSD).
      destruct (openbsd_wait_calm sfd w1 avail (wf_sigset_openbsd _ Hwf))
        as [-> Hrange]; [exact Hc1|reflexivity|exact E|].
      assert ((lowest_signal avail <? 0) = false) as Hneg by (apply Z.ltb_ge; lia).
      rewrite Hneg. simpl. rewrite ?Hneg. eexists. split; [reflexivity|]. simpl.
      do 4 (split; [done|]). unfold s, claimed_signal, to_uint32.
      by rewrite Z.mod_small by lia.
  - unfold sigtimedwait. rewrite kernel_sigwait_calm by exact Hc. fold avail.
    destruct (avail =? 0)%N eqn:E; simpl.
    + eexists. split; [reflexivity|]. by repeat (split; [done|]).
    + pose proof (pick_signal_pos (choice (hd quiet (env w))) _ E) as Hpos.
      assert ((pick_signal (choice (hd quiet (env w))) avail <? 0) = false)
        as Hneg by (apply Z.ltb_ge; lia).
      rewrite ?Hneg. simpl. rewrite ?Hneg. eexists. split; [reflexivity|]. simpl.
      do 4 (split; [done|]). unfold s, claimed_signal.
      apply N.eqb_neq in E.
      pose proof (pick_signal_member (choice (hd quiet (env w))) _ E) as Hm.
      unfold avail in Hm at 1. rewrite sigismember_land in Hm.
      apply andb_prop in Hm as [_ Hm].
      by rewrite (to_uint32_signal _ _ _ Hwf Hm).
Qed.

(** [signalfd_ctx_read] when the environment keeps quiet. *)
Lemma read_calm p fuel sfd ident w :
  calm (env w) ->
  wf_sigset p (sigs sfd) ->
  let avail := N.land (pending w) (sigs sfd) in
  let s := claimed_signal p (choice (hd quiet (env w))) avail in
  exists w',
    signalfd_ctx_read p (S fuel) sfd ident w =
      Some (if (avail =? 0)%N then EAGAIN else 0, w') /\
    calm (env w') /\ observed w' = observed w /\
    ready w' = negb (N.land (pending w') (sigs sfd) =? 0)%N /\
    pending w' = (if (avail =? 0)%N then pending w
                  else N.clearbit (pending w) (Z.to_N (s - 1))) /\
    mem w' = (if (avail =? 0)%N then mem w
              else <[ident := Z.to_N s]> (mem w)).
Proof.
  intros Hc Hwf avail s. unfold signalfd_ctx_read.
  destruct (read_impl_calm p fuel sfd ident (pthread_mutex_lock w) Hc Hwf)
    as (w1 & Himpl & Hc1 & Ho1 & _ & Hp1 & Hm1).
  simpl in Himpl, Ho1, Hp1, Hm1.
  fold avail in Himpl, Hp1, Hm1. fold s in Hp1, Hm1. rewrite Himpl.
  destruct (clear_signal_calm sfd false w1 Hc1)
    as (w2 & Hcs & Hp2 & Hm2 & Ho2 & Hc2 & Hr2).
  rewrite Hcs in *.
  destruct (avail =? 0)%N; simpl; (eexists; split; [reflexivity|]); simpl;
    (split; [exact Hc2|]); (split; [congruence|]);
    (split; [by rewrite Hr2, Hp2|]); split; congruence.
Qed.

(** ** The claim step on the process itself *)

Lemma sigpending_ret w r raw w1 :
  sigpending w = (r, raw, w1) ->
  (r = -1 /\ 0 < errno w1) \/ (r = 0 /\ raw = pending w1).
Proof.
  run_calls; intros; simplify_eq/=;
    first [by right|left; split; [reflexivity|lia]].
Qed.

Lemma has_pending_sigpending sfd w :
  signalfd_has_pending sfd w =
    let '(r, raw, w1) := sigpending w in
    if r <? 0 then (inl (errno w1), w1)
    else (inr (negb (N.land raw (sigs sfd) =? 0)%N, N.land raw (sigs sfd)), w1).
Proof. reflexivity. Qed.

Lemma thrsigdivert_claims mask ts w s w' :
  thrsigdivert mask ts w = (s, w') -> 0 <= s ->
  sigismember mask s = true /\ N.testbit (pending w') (Z.to_N (s - 1)) = false.
Proof.
  unfold thrsigdivert, kernel_sigwait. destruct (enter w) as [e w1].
  destruct (fault e); [intros; simplify_eq/=; lia|].
  destruct (_ =? _)%N eqn:E; [intros; simplify_eq/=; lia|].
  intros; simplify_eq/=. apply N.eqb_neq in E.
  pose proof (pick_signal_member (choice e) _ E) as Hm.
  rewrite sigismember_land in Hm. apply andb_prop in Hm as [_ Hm].
  split; [exact Hm|apply N.clearbit_eq].
Qed.

Lemma single_member g s :
  1 <= g -> sigismember (single g) s = true -> s = g.
Proof.
  intros Hg Hs. pose proof (sigismember_pos _ _ Hs) as Hpos.
  unfold sigismember, single in Hs. apply andb_prop in Hs as [_ Hb].
  rewrite N.pow2_bits_eqb in Hb. apply N.eqb_eq in Hb. lia.
Qed.

(** Whatever the code, a claim step that follows the specification leaves
    the world its outcome describes. *)
Lemma claim_steps_outcome sfd w o w' :
  claim_steps sfd w o w' -> outcome_holds sfd o w'.
Proof.
  induction 1 as [w raw w1 Hq Hz|w r raw w1 Hq Hr|
                  w raw w1 g ts s w2 o w3 Hq Hlow Hnb Ht Hs Hb _ IH|
                  w raw w1 g ts s w2 Hq Hlow Hnb Ht Hs|
                  w raw w1 g ts s w2 Hq Hlow Hnb Ht Hs Hb]; simpl.
  - apply sigpending_ret in Hq as [[? _]|[_ ->]]; [lia|exact Hz].
  - apply sigpending_ret in Hq as [[_ ?]|[? _]]; [done|lia].
  - exact IH.
  - apply thrsigdivert_claims in Ht as [Hm Hbit]; [|exact Hs].
    destruct Hlow as [Hlow _]. pose proof (sigismember_pos _ _ Hlow) as Hg.
    apply single_member in Hm; [|exact Hg]. subst s. split; [|exact Hbit].
    rewrite sigismember_land in Hlow. by apply andb_prop in Hlow as [_ ?].
  - apply thrsigdivert_spec in Ht as (_ & _ & _ & rt & -> & _ & Hrt).
    destruct rt as [v|e]; simpl in *; [|by destruct Hrt as [-> ?]].
    apply sigismember_pos in Hrt. lia.
Qed.

(** The OpenBSD loop of the source makes the calls of a claim step that
    follows the specification, on the same worlds. *)
Lemma claim_loop_steps fuel sfd w x w' :
  (sigs sfd < 2 ^ 32)%N ->
  claim_loop fuel sfd w = Some (x, w') ->
  exists o, claim_steps sfd w o w' /\
    match x with
    | LoopReturn ec => ec = outcome_status o /\ forall s, o <> Claimed s
    | LoopBreak s => o = if s <? 0 then OsError (errno w') else Claimed s
    end.
Proof.
  intros Hwf. revert w.
  induction fuel as [|fuel IH]; intros w H; [discriminate|].
  simpl in H. rewrite has_pending_sigpending in H.
  destruct (sigpending w) as [[r raw] w1] eqn:Hq.
  pose proof (sigpending_ret _ _ _ _ Hq) as [[-> Hpos]|[-> Hraw]]; simpl in H.
  { simplify_eq. exists (OsError (errno w')).
    split; [by eapply steps_query_error|]. by split. }
  set (ps := N.land raw (sigs sfd)) in *.
  destruct (ps =? 0)%N eqn:E; simpl in H.
  { simplify_eq. apply N.eqb_eq in E. exists NoneReady.
    split; [by eapply steps_none|]. by split. }
  apply N.eqb_neq in E.
  assert (ps < 2 ^ 32)%N as Hlt by (by apply land_bound).
  destruct (lowest_of_ffsll ps E Hlt) as (Hlow & Hrange & Hmask).
  rewrite Hmask in H.
  pose proof (nonblocking_claim_timeout OpenBSD) as Hnb.
  destruct (thrsigdivert _ _ w1) as [s w2] eqn:Ht.
  destruct (s <? 0) eqn:Es; simpl in H.
  - apply Z.ltb_lt in Es.
    destruct ((errno w2 =? EINVAL) || (errno w2 =? EAGAIN)) eqn:Hben.
    + apply benign_test in Hben.
      destruct (IH _ H) as (o & Hsteps & Hx).
      exists o. split; [|exact Hx]. by eapply steps_retry.
    + assert (~ benign (errno w2)) as Hnben
        by (intros Hb%benign_test; congruence).
      simplify_eq. exists (OsError (errno w')).
      split; [by eapply steps_error|].
      by assert ((s <? 0) = true) as -> by (by apply Z.ltb_lt).
  - apply Z.ltb_ge in Es. simplify_eq. exists (Claimed s).
    split; [by eapply steps_claim|].
    by assert ((s <? 0) = false) as -> by (by apply Z.ltb_ge).
Qed.

(** C6: on the OpenBSD variant the claim step of [read]
    - returns once it has had one turn more than the script has steps;
    - whenever it returns, it has made on the process the calls of
      [claim_steps]: query the pending set and restrict it to the set;
      empty, EAGAIN; else a non-blocking wait on the lowest-numbered
      pending signal alone; EINVAL and EAGAIN, and only they, start the loop
      again; a success writes the claimed signal through [ident] and returns
      zero; any other failure is returned; and the world it leaves is the
      one the outcome describes ([outcome_holds]);
    - when the environment keeps quiet, it claims the lowest-numbered
      monitored signal that is pending, and returns EAGAIN only if none
      is. *)
Theorem openbsd_claim_loop fuel sfd ident w :
  wf_sigset OpenBSD (sigs sfd) ->
  ((length (env w) < fuel)%nat ->
   is_Some (signalfd_ctx_read_impl OpenBSD fuel sfd ident w)) /\
  (forall ec w',
     signalfd_ctx_read_impl OpenBSD fuel sfd ident w = Some (ec, w') ->
     exists o w1,
       claim_steps sfd w o w1 /\ outcome_holds sfd o w1 /\
       ec = outcome_status o /\ w' = claim_result ident o w1) /\
  (calm (env w) -> (0 < fuel)%nat ->
   let avail := N.land (pending w) (sigs sfd) in
   exists w',
     signalfd_ctx_read_impl OpenBSD fuel sfd ident w =
       Some (if (avail =? 0)%N then EAGAIN else 0, w') /\
     pending w' = (if (avail =? 0)%N then pending w
                   else N.clearbit (pending w) (Z.to_N (lowest_signal avail - 1))) /\
     mem w' = (if (avail =? 0)%N then mem w
               else <[ident := Z.to_N (lowest_signal avail)]> (mem w))).
Proof.
  intros Hwf. pose proof (wf_sigset_openbsd _ Hwf) as Hlt.
  split; [|split].
  - intros Hlen. simpl.
    destruct (claim_loop_terminates fuel sfd w Hlt Hlen) as [[x w1] ->].
    destruct x; by eexists.
  - intros ec w' H. simpl in H.
    destruct (claim_loop fuel sfd w) as [[x w2]|] eqn:Hloop; [|discriminate].
    apply claim_loop_steps in Hloop as (o & Hsteps & Hx); [|exact Hlt].
    pose proof (claim_steps_outcome _ _ _ _ Hsteps) as Hout.
    exists o, w2. split; [exact Hsteps|]. split; [exact Hout|].
    destruct x as [ec'|s].
    + destruct Hx as [-> Hnc]. simplify_eq. split; [reflexivity|].
      destruct o; [reflexivity|by destruct (Hnc s)|reflexivity].
    + destruct (s <? 0) eqn:Es; subst o; simplify_eq; [by split|].
      split; [reflexivity|]. simpl in *. destruct Hout as [Hin _].
      by rewrite (to_uint32_signal _ _ _ Hwf Hin).
  - intros Hc Hfuel avail. destruct fuel as [|fuel]; [lia|].
    destruct (read_impl_calm OpenBSD fuel sfd ident w Hc Hwf)
      as (w' & Hr & _ & _ & _ & Hp & Hm).
    exists w'. by repeat split.
Qed.

Lemma openbsd_claim_loop_witness :
  is_Some (signalfd_ctx_read_impl OpenBSD 3 sfd12 64%N (world_with 1 retry_script)) /\
  (exists o w1,
     claim_steps sfd12 (world_with 1 retry_script) o w1 /\
     outcome_holds sfd12 o w1 /\
     0 = outcome_status o /\ after_retry_claim = claim_result 64%N o w1) /\
  (let avail := N.land (pending (world_with 6 [])) (sigs sfd12) in
   exists w',
     signalfd_ctx_read_impl OpenBSD 1 sfd12 64%N (world_with 6 []) =
       Some (if (avail =? 0)%N then EAGAIN else 0, w') /\
     pending w' = (if (avail =? 0)%N then pending (world_with 6 [])
                   else N.clearbit (pending (world_with 6 []))
                          (Z.to_N (lowest_signal avail - 1))) /\
     mem w' = (if (avail =? 0)%N then mem (world_with 6 [])
               else <[64%N := Z.to_N (lowest_signal avail)]> (mem (world_with 6 [])))).
Proof.
  assert (wf_sigset OpenBSD (sigs sfd12)) as Hwf by (unfold wf_sigset; simpl; lia).
  pose proof (openbsd_claim_loop 3 sfd12 64%N (world_with 1 retry_script) Hwf)
    as (Hret & Hsteps & _).
  pose proof (openbsd_claim_loop 1 sfd12 64%N (world_with 6 []) Hwf)
    as (_ & _ & Hcalm).
  split; [apply Hret; simpl; lia|]. split.
  - apply (Hsteps 0 after_retry_claim). vm_compute. reflexivity.
  - apply Hcalm; [split; constructor|lia].
Defined.

(** ** The pending-set query *)

(** [signalfd_has_pending] makes one call, [sigpending], stores nothing
    and takes no signal from the pending set.  When the call fails it
    returns its error, which is positive; otherwise it returns the pending
    set of that moment restricted to the monitored set, and [has_pending]
    says whether that is non-empty. *)
Theorem has_pending_answers sfd w r w' :
  signalfd_has_pending sfd w = (r, w') ->
  keeps_pending w w' /\ mem w' = mem w /\
  match r with
  | inl ec => events_of w w' [EvSigpending (Failed ec) 0] /\ 0 < ec /\
              errno w' = ec
  | inr (hp, ps) =>
      events_of w w' [EvSigpending (Done 0) (pending w')] /\
      ps = N.land (pending w') (sigs sfd) /\
      (hp = true <-> ps <> 0%N)
  end.
Proof.
  intros H. pose proof (has_pending_spec _ _ _ _ H) as (Hk & Hm & _ & Hr).
  split; [exact Hk|]. split; [exact Hm|].
  destruct r as [ec|[hp ps]].
  - destruct Hr as [Hev Hpos]. split; [exact Hev|]. split; [exact Hpos|].
    revert H. unfold signalfd_has_pending.
    destruct (sigpending w) as [[r0 raw] w0]. destruct (r0 <? 0); congruence.
  - destruct Hr as (Hev & Hps & Hhp). split; [exact Hev|]. split; [exact Hps|].
    rewrite Hhp, negb_true_iff. apply N.eqb_neq.
Qed.

Lemma has_pending_answers_witness :
  keeps_pending (world_with 1 [arrives2]) after_query_arrival /\
  mem after_query_arrival = mem (world_with 1 [arrives2]) /\
  events_of (world_with 1 [arrives2]) after_query_arrival
    [EvSigpending (Done 0) (pending after_query_arrival)] /\
  3%N = N.land (pending after_query_arrival) (sigs sfd12) /\
  (true = true <-> 3%N <> 0%N).
Proof.
  apply (has_pending_answers sfd12 (world_with 1 [arrives2]) (inr (true, 3%N))
           after_query_arrival).
  vm_compute. reflexivity.
Defined.

(** ** poll with a null revents, and the skip-clear path *)

(** [signalfd_ctx_poll] with a null [revents] stores nothing, and never
    takes the skip-clear path: after the lock its first call is
    [kqueue_event_clear], followed by the recheck. *)
Theorem poll_null_clears sfd w :
  mem (signalfd_ctx_poll sfd None w) = mem w /\
  exists r set tr,
    events_of w (signalfd_ctx_poll sfd None w)
      (EvMutexLock :: EvKqueueEventClear :: EvSigpending r set :: tr).
Proof.
  unfold signalfd_ctx_poll, events_of.
  case_bool_decide as E; [by destruct E|].
  split.
  - pose proof (clear_signal_mem sfd false (pthread_mutex_lock w)) as Hm.
    by destruct (signalfd_ctx_clear_signal _ _ _).
  - run_calls; eexists _, _, _; rewrite <- ?app_assoc; reflexivity.
Qed.

(** The skip-clear path: entered with [was_triggered], when the query
    succeeds and finds a monitored signal pending, the step makes no other
    call and returns true; the registration is left as the kernel has
    it. *)
Theorem skip_clear_keeps_registration sfd w :
  fault (fst (enter w)) = None ->
  N.land (pending (snd (enter w))) (sigs sfd) <> 0%N ->
  signalfd_ctx_clear_signal sfd true w =
    (true, log (EvSigpending (Done 0) (pending (snd (enter w)))) (snd (enter w))).
Proof.
  intros Hf Hne. apply N.eqb_neq in Hne.
  unfold signalfd_ctx_clear_signal, signalfd_has_pending, sigpending,
    sigandset, sigisemptyset.
  destruct (enter w) as [e w1]. simpl in *. rewrite Hf. simpl.
  by rewrite Hne.
Qed.

Lemma skip_clear_keeps_registration_witness :
  signalfd_ctx_clear_signal sfd12 true (world_with 1 [arrives2]) =
    (true,
     log (EvSigpending (Done 0) (pending (snd (enter (world_with 1 [arrives2])))))
         (snd (enter (world_with 1 [arrives2])))).
Proof.
  apply (skip_clear_keeps_registration sfd12 (world_with 1 [arrives2]));
    [reflexivity|discriminate].
Defined.

(** ** The calls of read *)

Lemma claim_only_no_lock tr : claim_only tr -> no_lock_calls tr.
Proof.
  intros H. eapply Forall_impl; [exact H|]. intros ev Hev. by destruct ev.
Qed.

Lemma claim_only_no_clear tr : claim_only tr -> EvKqueueEventClear ∉ tr.
Proof.
  intros H Hin. unfold claim_only in H. rewrite Forall_forall in H.
  specialize (H _ Hin). discriminate H.
Qed.

Lemma claim_loop_events fuel sfd w x w' :
  claim_loop fuel sfd w = Some (x, w') ->
  exists tr, events_of w w' tr /\ claim_only tr.
Proof.
  revert w. induction fuel as [|fuel IH]; intros w H; [discriminate|].
  simpl in H.
  destruct (signalfd_has_pending sfd w) as [r w1] eqn:Hq.
  apply has_pending_spec in Hq as (_ & _ & _ & Hr).
  assert (exists q, events_of w w1 [q] /\ is_claim_call q = true) as (q & Hq & Hcq).
  { destruct r as [ec|[hp ps]]; destruct Hr as [Hr _]; by eexists. }
  assert (claim_only [q]) as Hwq by (by repeat constructor).
  destruct r as [ec|[[] ps]]; simpl in H; try (simplify_eq; by eexists).
  destruct (thrsigdivert _ _ w1) as [s w2] eqn:Ht.
  apply thrsigdivert_spec in Ht as (_ & _ & _ & rt & _ & Hev2 & _).
  assert (claim_only
            ([q] ++ [EvThrsigdivert (sigmask (ffsll ps)) (claim_timeout OpenBSD) rt]))
    as Hw2 by (by repeat constructor).
  destruct (_ && _).
  - destruct (IH _ H) as (tr & Hev3 & Hw3).
    eexists. split.
    + eapply events_of_trans; [exact (events_of_trans _ _ _ _ _ Hq Hev2)|exact Hev3].
    + apply Forall_app. by split.
  - simplify_eq. eexists. split; [exact (events_of_trans _ _ _ _ _ Hq Hev2)|exact Hw2].
Qed.

Lemma read_impl_events p fuel sfd ident w ec w' :
  signalfd_ctx_read_impl p fuel sfd ident w = Some (ec, w') ->
  exists tr, events_of w w' tr /\ claim_only tr.
Proof.
  intros H. destruct p; simpl in H.
  - destruct (claim_loop fuel sfd w) as [[x w2]|] eqn:Hloop; [|discriminate].
    apply claim_loop_events in Hloop as (tr & Hev & Hw).
    exists tr. split; [|exact Hw].
    destruct x as [ec'|s]; [by simplify_eq|].
    destruct (s <? 0); by simplify_eq.
  - destruct (sigtimedwait _ _ w) as [s w2] eqn:Hs.
    apply sigtimedwait_spec in Hs as (_ & _ & r & _ & Hev & _).
    eexists. split.
    + destruct (s <? 0); simplify_eq; exact Hev.
    + by repeat constructor.
Qed.

Lemma clear_signal_events sfd w :
  exists tr,
    events_of w (snd (signalfd_ctx_clear_signal sfd false w))
      (EvKqueueEventClear :: tr) /\
    no_lock_calls (EvKqueueEventClear :: tr).
Proof.
  unfold events_of, no_lock_calls.
  run_calls; eexists; (split; [rewrite <- ?app_assoc; reflexivity|]);
    repeat constructor.
Qed.

Lemma clear_signal_no_lock sfd wt w :
  exists tr,
    events_of w (snd (signalfd_ctx_clear_signal sfd wt w)) tr /\
    no_lock_calls tr.
Proof.
  unfold events_of, no_lock_calls.
  run_calls; eexists; (split; [rewrite <- ?app_assoc; reflexivity|]);
    repeat constructor.
Qed.

(** What [signalfd_ctx_read] calls, in order: the lock, the calls of the
    claim step, the reconciliation step if the status is zero or EAGAIN,
    the unlock. *)
Lemma read_events p fuel sfd ident w ec w' :
  signalfd_ctx_read p fuel sfd ident w = Some (ec, w') ->
  exists tr1 tr2,
    events_of w w' ([EvMutexLock] ++ tr1 ++ tr2 ++ [EvMutexUnlock]) /\
    claim_only tr1 /\ no_lock_calls tr2 /\
    if (ec =? 0) || (ec =? EAGAIN)
    then exists tr, tr2 = EvKqueueEventClear :: tr
    else tr2 = [].
Proof.
  unfold signalfd_ctx_read. intros H.
  destruct (signalfd_ctx_read_impl _ _ _ _ _) as [[ec1 w1]|] eqn:Himpl;
    [|discriminate].
  apply read_impl_events in Himpl as (tr1 & Hev1 & Hc1).
  assert (events_of w (pthread_mutex_lock w) [EvMutexLock]) as Hlock
    by reflexivity.
  replace ((ec1 =? 0) || (ec1 =? EAGAIN) || (ec1 =? EWOULDBLOCK))
    with ((ec1 =? 0) || (ec1 =? EAGAIN)) in H
    by (unfold EWOULDBLOCK; by destruct (ec1 =? 0), (ec1 =? EAGAIN)).
  destruct ((ec1 =? 0) || (ec1 =? EAGAIN)) eqn:E; simplify_eq; rewrite E.
  - destruct (clear_signal_events sfd w1) as (tr & Hev2 & Hn2).
    exists tr1, (EvKqueueEventClear :: tr).
    split; [|split; [exact Hc1|split; [exact Hn2|by eexists]]].
    eapply events_of_trans; [exact Hlock|].
    eapply events_of_trans; [exact Hev1|].
    eapply events_of_trans; [exact Hev2|]. reflexivity.
  - exists tr1, []. split; [|split; [exact Hc1|split; [constructor|reflexivity]]].
    eapply events_of_trans; [exact Hlock|].
    eapply events_of_trans; [exact Hev1|]. reflexivity.
Qed.

(** [signalfd_ctx_read] takes the mutex first and releases it last on
    every path, error returns included, and does not touch it in
    between. *)
Theorem read_holds_the_lock p fuel sfd ident w ec w' :
  signalfd_ctx_read p fuel sfd ident w = Some (ec, w') ->
  exists tr, events_of w w' (EvMutexLock :: tr ++ [EvMutexUnlock]) /\
             no_lock_calls tr.
Proof.
  intros H.
  apply read_events in H as (tr1 & tr2 & Hev & Hc1 & Hn2 & _).
  exists (tr1 ++ tr2). split.
  - by rewrite <- app_assoc.
  - apply Forall_app. split; [by apply claim_only_no_lock|exact Hn2].
Qed.

(** [signalfd_ctx_poll] takes the mutex first, releases it last and does
    not touch it in between, whether [revents] is null or not. *)
Theorem poll_holds_the_lock sfd revents w :
  exists tr,
    events_of w (signalfd_ctx_poll sfd revents w)
      (EvMutexLock :: tr ++ [EvMutexUnlock]) /\
    no_lock_calls tr.
Proof.
  unfold signalfd_ctx_poll.
  destruct (clear_signal_no_lock sfd (bool_decide (revents <> None))
              (pthread_mutex_lock w)) as (tr & Hev & Hn).
  destruct (signalfd_ctx_clear_signal _ _ _) as [b w1]. simpl in Hev.
  exists tr. split; [|exact Hn].
  eapply (events_of_trans w (pthread_mutex_lock w) _ [EvMutexLock]);
    [reflexivity|].
  eapply events_of_trans; [exact Hev|]. by destruct revents.
Qed.

(** [signalfd_ctx_read] runs the reconciliation step exactly when its
    status is zero or EAGAIN: on any other status it has called neither
    [kqueue_event_clear] nor [kqueue_event_trigger], only the claim step's
    queries and waits between lock and unlock. *)
Theorem read_reconciles_iff_claim_settled p fuel sfd ident w ec w' :
  signalfd_ctx_read p fuel sfd ident w = Some (ec, w') ->
  exists tr,
    events_of w w' tr /\
    (EvKqueueEventClear ∈ tr <-> ec = 0 \/ ec = EAGAIN) /\
    (ec <> 0 -> ec <> EAGAIN ->
     exists tr1, tr = EvMutexLock :: tr1 ++ [EvMutexUnlock] /\ claim_only tr1).
Proof.
  intros H. apply read_events in H as (tr1 & tr2 & Hev & Hc1 & Hn2 & Hrec).
  eexists. split; [exact Hev|].
  pose proof (claim_only_no_clear _ Hc1) as Hnc.
  destruct ((ec =? 0) || (ec =? EAGAIN)) eqn:E.
  - apply orb_true_iff in E. rewrite !Z.eqb_eq in E.
    destruct Hrec as [tr ->]. split.
    + split; [by intros _|]. intros _.
      apply elem_of_app. right. apply elem_of_app. right.
      apply elem_of_app. left. by left.
    + intros H0 H1. by destruct E.
  - apply orb_false_iff in E as [E0 E1]. apply Z.eqb_neq in E0, E1.
    subst tr2. split.
    + split; [|by intros [?|?]]. intros Hin. exfalso.
      apply elem_of_app in Hin as [Hin|Hin];
        [by apply list_elem_of_singleton in Hin|].
      apply elem_of_app in Hin as [Hin|Hin]; [by apply Hnc|].
      simpl in Hin. by apply list_elem_of_singleton in Hin.
    + intros _ _. exists tr1. by split.
Qed.

(** ** What read takes from the pending set *)

Ltac calm_goal :=
  repeat match goal with
         | H : (_ =? _)%N = _ |- _ => rewrite H in *
         | H : fault _ = _ |- _ => rewrite H in *
         end; simpl in *.







(** ** read and poll in a quiet environment *)


(** When the environment keeps quiet, one turn of the claim loop is enough
    and [signalfd_ctx_read] returns zero exactly when a monitored signal is
    pending and EAGAIN exactly when none is; it leaves the registration
    ready exactly when a monitored signal is still pending. *)
Theorem read_in_calm p fuel sfd ident w :
  calm (env w) ->
  wf_sigset p (sigs sfd) ->
  (0 < fuel)%nat ->
  exists ec w',
    signalfd_ctx_read p fuel sfd ident w = Some (ec, w') /\
    (ec = 0 <-> N.land (pending w) (sigs sfd) <> 0%N) /\
    (ec = EAGAIN <-> N.land (pending w) (sigs sfd) = 0%N) /\
    (ready w' = true <-> N.land (pending w') (sigs sfd) <> 0%N).
Proof.
  intros Hc Hwf Hfuel. destruct fuel as [|fuel]; [lia|].
  destruct (read_calm p fuel sfd ident w Hc Hwf) as (w' & Hr & _ & _ & Hrd & _).
  eexists _, w'. split; [exact Hr|].
  rewrite Hrd, negb_true_iff, N.eqb_neq.
  destruct (N.eqb_spec (N.land (pending w) (sigs sfd)) 0) as [E|E].
  - repeat split; try done; unfold EAGAIN; intros; lia.
  - repeat split; try done; unfold EAGAIN; intros; lia.
Qed.

(** On OpenBSD, when the environment keeps quiet and a monitored signal is
    pending, [signalfd_ctx_read] reports the lowest-numbered monitored
    signal that is pending. *)
Theorem openbsd_read_reports_lowest fuel sfd ident w :
  calm (env w) ->
  wf_sigset OpenBSD (sigs sfd) ->
  N.land (pending w) (sigs sfd) <> 0%N ->
  exists s w',
    signalfd_ctx_read OpenBSD (S fuel) sfd ident w = Some (0, w') /\
    mem w' !! ident = Some (Z.to_N s) /\
    is_lowest_member (N.land (pending w) (sigs sfd)) s.
Proof.
  intros Hc Hwf Hne.
  destruct (read_calm OpenBSD fuel sfd ident w Hc Hwf)
    as (w' & Hr & _ & _ & _ & _ & Hm).
  apply N.eqb_neq in Hne as Hne'. rewrite Hne' in Hr, Hm.
  exists (lowest_signal (N.land (pending w) (sigs sfd))), w'.
  split; [exact Hr|]. split.
  - rewrite Hm. apply lookup_insert_eq.
  - split; [by apply lowest_signal_member|apply lowest_signal_least].
Qed.

(** The two platform variants agree: when the environment keeps quiet and
    the kernel's wait hands out the lowest-numbered signal, the OpenBSD
    loop and the single [sigtimedwait] return the same status, store the
    same identifier and leave the same pending set and ready bit. *)
Theorem platform_variants_agree f1 f2 sfd ident w :
  calm (env w) ->
  wf_sigset OpenBSD (sigs sfd) ->
  pick_signal (choice (hd quiet (env w))) (N.land (pending w) (sigs sfd))
    = lowest_signal (N.land (pending w) (sigs sfd)) ->
  exists ec w1 w2,
    signalfd_ctx_read OpenBSD (S f1) sfd ident w = Some (ec, w1) /\
    signalfd_ctx_read Generic f2 sfd ident w = Some (ec, w2) /\
    mem w1 = mem w2 /\ pending w1 = pending w2 /\ ready w1 = ready w2.
Proof.
  intros Hc Hwf Hpick.
  assert (wf_sigset Generic (sigs sfd)) as Hwf'.
  { unfold wf_sigset in *. simpl in *. lia. }
  destruct (read_calm OpenBSD f1 sfd ident w Hc Hwf)
    as (w1 & Hr1 & _ & _ & Hrd1 & Hp1 & Hm1).
  destruct (read_calm Generic 0 sfd ident w Hc Hwf')
    as (w2 & Hr2 & _ & _ & Hrd2 & Hp2 & Hm2).
  simpl in *. rewrite Hpick in Hp2, Hm2.
  eexists _, w1, w2. split; [exact Hr1|]. split.
  - destruct f2; exact Hr2.
  - split; [congruence|]. split; [congruence|]. by rewrite Hrd1, Hrd2, Hp1, Hp2.
Qed.


(** ** Draining the pending set *)










(** ** init, call by call *)

Lemma pthread_mutex_init_ev w r w' :
  pthread_mutex_init w = (r, w') -> events_of w w' [EvMutexInit r].
Proof. unfold events_of. run_calls; intros; by simplify_eq/=. Qed.

Lemma pthread_mutex_destroy_ev w r w' :
  pthread_mutex_destroy w = (r, w') -> events_of w w' [EvMutexDestroy r].
Proof. unfold events_of. run_calls; intros; by simplify_eq/=. Qed.

Lemma kqueue_event_init_ev w r kevs w' :
  kqueue_event_init w = (r, kevs, w') -> events_of w w' [EvKqueueEventInit r].
Proof. unfold events_of. run_calls; intros; by simplify_eq/=. Qed.

Lemma kqueue_event_terminate_ev w r w' :
  kqueue_event_terminate w = (r, w') -> events_of w w' [EvKqueueEventTerminate r].
Proof. unfold events_of. run_calls; intros; by simplify_eq/=. Qed.

Lemma kqueue_event_trigger_ev w r w' :
  kqueue_event_trigger w = (r, w') -> events_of w w' [EvKqueueEventTrigger r].
Proof. unfold events_of. run_calls; intros; by simplify_eq/=. Qed.

Lemma kevent_ev kevs w n w' :
  kevent kevs w = (n, w') ->
  if n <? 0
  then events_of w w' [EvKevent kevs (Failed (errno w'))] /\ 0 < errno w'
  else events_of w w' [EvKevent kevs (Done 0)].
Proof. unfold events_of. run_calls; intros; simplify_eq/=; by try split. Qed.

Lemma has_pending_ev sfd w r w' :
  signalfd_has_pending sfd w = (r, w') ->
  match r with
  | inl ec => events_of w w' [EvSigpending (Failed ec) 0] /\ 0 < ec
  | inr (hp, ps) =>
      exists raw, events_of w w' [EvSigpending (Done 0) raw] /\
                  hp = negb (N.land raw (sigs sfd) =? 0)%N
  end.
Proof.
  intros H. apply has_pending_spec in H as (_ & _ & _ & Hr).
  destruct r as [ec|[hp ps]]; [exact Hr|].
  destruct Hr as (Hev & -> & ->). by eexists.
Qed.

(** The teardown of a failed [signalfd_ctx_init]: [out] and [out2]. *)
Lemma init_out2 w w' :
  snd (pthread_mutex_destroy w) = w' ->
  exists r, events_of w w' [EvMutexDestroy r].
Proof.
  destruct (pthread_mutex_destroy w) as [r w1] eqn:H. simpl. intros <-.
  exists r. by apply pthread_mutex_destroy_ev.
Qed.

Lemma init_out w w' :
  snd (pthread_mutex_destroy (snd (kqueue_event_terminate w))) = w' ->
  exists r1 r2, events_of w w' [EvKqueueEventTerminate r1; EvMutexDestroy r2].
Proof.
  destruct (kqueue_event_terminate w) as [r1 w1] eqn:H1. simpl.
  destruct (pthread_mutex_destroy w1) as [r2 w2] eqn:H2. simpl. intros <-.
  exists r1, r2.
  apply (events_of_trans w w1 w2 [EvKqueueEventTerminate r1] [EvMutexDestroy r2]);
    [by apply kqueue_event_terminate_ev|by apply pthread_mutex_destroy_ev].
Qed.

Lemma init_out_result (ec : Z) (sfd : SignalFDCtx) w :
  (let '(_, w) := kqueue_event_terminate w in
   let '(_, w) := pthread_mutex_destroy w in (ec, sfd, w)) =
  (ec, sfd, snd (pthread_mutex_destroy (snd (kqueue_event_terminate w)))).
Proof.
  destruct (kqueue_event_terminate w) as [? w1]. simpl.
  by destruct (pthread_mutex_destroy w1).
Qed.

(** Every path of [signalfd_ctx_init], with the calls it makes. *)
Lemma init_paths p kq0 sigs0 w ec sfd w' :
  signalfd_ctx_init p kq0 sigs0 w = (ec, sfd, w') ->
  sfd = {| kq := kq0; sigs := sigs0 |} /\
  exists tr, events_of w w' tr /\
    if ec =? 0
    then exists raw,
      tr = [EvMutexInit 0; EvKqueueEventInit 0;
            EvKevent (init_kevs p sfd [KevUser]) (Done 0);
            EvSigpending (Done 0) raw] ++
           (if (N.land raw sigs0 =? 0)%N then [] else [EvKqueueEventTrigger 0])
    else init_rollback ec tr.
Proof.
  unfold signalfd_ctx_init, signalfd_ctx_trigger_manually.
  set (sfd0 := {| kq := kq0; sigs := sigs0 |}).
  destruct (pthread_mutex_init w) as [ec1 w1] eqn:H1.
  apply pthread_mutex_init_ev in H1.
  destruct (ec1 =? 0) eqn:E1; simpl.
  2:{ intros; simplify_eq. split; [done|]. rewrite E1.
      eexists. split; [exact H1|]. by left. }
  apply Z.eqb_eq in E1. subst ec1.
  pose proof (kqueue_event_init_ok w1) as Hkevs.
  destruct (kqueue_event_init w1) as [[ec2 kevs] w2] eqn:H2.
  apply kqueue_event_init_ev in H2.
  pose proof (events_of_trans _ _ _ _ _ H1 H2) as H12.
  destruct (ec2 =? 0) eqn:E2; simpl.
  2:{ pose proof (init_out2 w2 _ eq_refl) as [r Hr].
      destruct (pthread_mutex_destroy w2) as [? w3]. simpl in Hr.
      intros; simplify_eq. split; [done|]. rewrite E2.
      eexists. split; [exact (events_of_trans _ _ _ _ _ H12 Hr)|].
      right. left. by exists r. }
  apply Z.eqb_eq in E2. subst ec2. specialize (Hkevs _ _ eq_refl). subst kevs.
  assert (forall w3 w4 ev ec mid,
            events_of w w3 ([EvMutexInit 0; EvKqueueEventInit 0] ++ mid ++ [ev]) ->
            failed_with ev ec -> ec <> 0 ->
            Forall (fun e => succeeded e = true) mid ->
            snd (pthread_mutex_destroy (snd (kqueue_event_terminate w3))) = w4 ->
            exists tr, events_of w w4 tr /\ init_rollback ec tr) as Hout.
  { intros w3 w4 ev ec' mid Hev Hf Hne Hmid H4.
    apply init_out in H4 as (r1 & r2 & H4).
    eexists. split; [exact (events_of_trans _ _ _ _ _ Hev H4)|].
    right. right. exists mid, ev, r1, r2. split; [|split; [exact Hf|exact Hmid]].
    simpl. by rewrite <- !app_assoc. }
  destruct (kevent _ w2) as [n w3] eqn:H3. apply kevent_ev in H3.
  destruct (n <? 0) eqn:E3.
  { destruct H3 as [H3 Hpos].
    specialize (Hout w3 (snd (pthread_mutex_destroy (snd (kqueue_event_terminate w3))))
                  _ (errno w3) [] (events_of_trans _ _ _ _ _ H12 H3) eq_refl).
    destruct Hout as (tr & Htr & Hrb); [lia|constructor|reflexivity|].
    rewrite init_out_result. intros; simplify_eq. split; [done|].
    assert ((errno w3 =? 0) = false) as -> by (apply Z.eqb_neq; lia).
    by exists tr. }
  pose proof (events_of_trans _ _ _ _ _ H12 H3) as H123. simpl in H123.
  destruct (signalfd_has_pending _ w3) as [r w4] eqn:H4.
  apply has_pending_ev in H4.
  destruct r as [ec4|[hp ps]].
  { destruct H4 as [H4 Hpos].
    specialize (Hout w4 (snd (pthread_mutex_destroy (snd (kqueue_event_terminate w4))))
                  _ ec4 [EvKevent (init_kevs p sfd0 [KevUser]) (Done 0)]
                  (events_of_trans _ _ _ _ _ H123 H4) eq_refl).
    destruct Hout as (tr & Htr & Hrb);
      [lia|by repeat constructor|reflexivity|].
    rewrite init_out_result. intros; simplify_eq. split; [done|].
    assert ((ec =? 0) = false) as -> by (apply Z.eqb_neq; lia).
    by exists tr. }
  destruct H4 as (raw & H4 & Hhp). simpl in Hhp.
  pose proof (events_of_trans _ _ _ _ _ H123 H4) as H1234. simpl in H1234.
  destruct hp.
  - destruct (kqueue_event_trigger w4) as [ec5 w5] eqn:H5.
    apply kqueue_event_trigger_ev in H5.
    destruct (ec5 =? 0) eqn:E5; simpl.
    + apply Z.eqb_eq in E5. subst ec5. intros; simplify_eq.
      split; [done|]. simpl. eexists. split; [exact (events_of_trans _ _ _ _ _ H1234 H5)|].
      exists raw. symmetry in Hhp. apply negb_true_iff in Hhp. by rewrite Hhp.
    + specialize (Hout w5 (snd (pthread_mutex_destroy (snd (kqueue_event_terminate w5))))
                    _ ec5 [EvKevent (init_kevs p sfd0 [KevUser]) (Done 0);
                           EvSigpending (Done 0) raw]
                    (events_of_trans _ _ _ _ _ H1234 H5) eq_refl).
      apply Z.eqb_neq in E5.
      destruct Hout as (tr & Htr & Hrb);
        [exact E5|by repeat constructor|reflexivity|].
      rewrite init_out_result. intros; simplify_eq. split; [done|].
      assert ((ec =? 0) = false) as -> by (by apply Z.eqb_neq).
      by exists tr.
  - intros; simplify_eq. split; [done|]. simpl.
    eexists. split; [exact H1234|]. exists raw.
    symmetry in Hhp. apply negb_false_iff in Hhp. by rewrite Hhp.
Qed.

(** ** init *)

(** A [signalfd_ctx_init] that returns an error stopped at the first call
    that failed, returns that call's error, and has undone what it had set
    up: nothing if the mutex could not be created, the mutex if
    [kqueue_event_init] failed, the registration and then the mutex after
    that. *)
Theorem init_stops_and_rolls_back p kq0 sigs0 w ec sfd w' :
  signalfd_ctx_init p kq0 sigs0 w = (ec, sfd, w') ->
  ec <> 0 ->
  exists tr, events_of w w' tr /\ init_rollback ec tr.
Proof.
  intros H Hne. apply init_paths in H as (_ & tr & Hev & Hrb).
  apply Z.eqb_neq in Hne. rewrite Hne in Hrb. by exists tr.
Qed.

(** A [signalfd_ctx_init] that returns zero made four calls that all
    succeeded, the batch registration with the list built from the set
    among them, and then forced the registration ready if and only if the
    query found a monitored signal pending; it tore nothing down. *)
Theorem init_success_calls p kq0 sigs0 w sfd w' :
  signalfd_ctx_init p kq0 sigs0 w = (0, sfd, w') ->
  sfd = {| kq := kq0; sigs := sigs0 |} /\
  exists raw,
    events_of w w'
      ([EvMutexInit 0; EvKqueueEventInit 0;
        EvKevent (init_kevs p sfd [KevUser]) (Done 0);
        EvSigpending (Done 0) raw] ++
       (if (N.land raw sigs0 =? 0)%N then [] else [EvKqueueEventTrigger 0])).
Proof.
  intros H. apply init_paths in H as (-> & tr & Hev & raw & ->).
  split; [reflexivity|]. by exists raw.
Qed.

(** The batch request [signalfd_ctx_init] builds holds the entry of
    [kqueue_event_init] and one EVFILT_SIGNAL entry for each member of the
    set between 1 and [_SIG_MAXSIG], each once; members above
    [_SIG_MAXSIG] are not registered.  For a set that fits [sigset_t] the
    registered signals are exactly the set. *)
Theorem init_batch_covers_the_set p sfd :
  (forall s, KevSignal s ∈ init_kevs p sfd [KevUser] <->
             1 <= s <= SIG_MAXSIG p /\ sigismember (sigs sfd) s = true) /\
  NoDup (init_kevs p sfd [KevUser]) /\
  (wf_sigset p (sigs sfd) ->
   kev_signals (init_kevs p sfd [KevUser]) = sigs sfd).
Proof.
  split; [|split; [|apply init_kevs_observes]].
  - intros s. unfold init_kevs. rewrite elem_of_app, list_elem_of_singleton.
    rewrite list_elem_of_fmap. split.
    + intros [Hs|(s' & Heq & Hs')]; [discriminate|]. simplify_eq.
      apply list_elem_of_filter in Hs' as [Hm Hs'].
      apply elem_of_seqZ in Hs'. split; [lia|exact Hm].
    + intros [Hr Hm]. right. exists s. split; [reflexivity|].
      apply list_elem_of_filter. split; [exact Hm|].
      apply elem_of_seqZ. lia.
  - unfold init_kevs. apply NoDup_app. split; [apply NoDup_singleton|]. split.
    + intros k Hk%list_elem_of_singleton Hin. subst k.
      apply list_elem_of_fmap in Hin as (s & Heq & _). discriminate.
    + apply NoDup_fmap_2; [by intros ?? [=]|].
      apply NoDup_filter, NoDup_seqZ.
Qed.

(** ** The properties above on runs of the code *)

Lemma read_holds_the_lock_witness :
  exists tr,
    events_of (world_with 5 wait_fails_once) after_wait_retry
      (EvMutexLock :: tr ++ [EvMutexUnlock]) /\
    no_lock_calls tr.
Proof.
  apply (read_holds_the_lock OpenBSD 2 sfd12 64%N
           (world_with 5 wait_fails_once) 0 after_wait_retry).
  vm_compute. reflexivity.
Defined.

Lemma read_reconciles_iff_claim_settled_witness :
  exists tr,
    events_of (world_with 1 [fails_efault]) after_read_efault tr /\
    (EvKqueueEventClear ∈ tr <-> 14 = 0 \/ 14 = EAGAIN) /\
    (14 <> 0 -> 14 <> EAGAIN ->
     exists tr1, tr = EvMutexLock :: tr1 ++ [EvMutexUnlock] /\ claim_only tr1).
Proof.
  apply (read_reconciles_iff_claim_settled OpenBSD 1 sfd12 64%N
           (world_with 1 [fails_efault]) 14 after_read_efault).
  vm_compute. reflexivity.
Defined.


Lemma read_in_calm_witness :
  exists ec w',
    signalfd_ctx_read Generic 1 sfd12 64%N (world_with 6 []) = Some (ec, w') /\
    (ec = 0 <-> N.land (pending (world_with 6 [])) (sigs sfd12) <> 0%N) /\
    (ec = EAGAIN <-> N.land (pending (world_with 6 [])) (sigs sfd12) = 0%N) /\
    (ready w' = true <-> N.land (pending w') (sigs sfd12) <> 0%N).
Proof.
  apply (read_in_calm Generic 1 sfd12 64%N (world_with 6 [])).
  - split; constructor.
  - unfold wf_sigset. simpl. lia.
  - lia.
Defined.

Lemma openbsd_read_reports_lowest_witness :
  exists s w',
    signalfd_ctx_read OpenBSD 1 sfd12 64%N (world_with 6 []) = Some (0, w') /\
    mem w' !! 64%N = Some (Z.to_N s) /\
    is_lowest_member (N.land (pending (world_with 6 [])) (sigs sfd12)) s.
Proof.
  apply (openbsd_read_reports_lowest 0 sfd12 64%N (world_with 6 [])).
  - split; constructor.
  - unfold wf_sigset. simpl. lia.
  - discriminate.
Defined.

Lemma platform_variants_agree_witness :
  exists ec w1 w2,
    signalfd_ctx_read OpenBSD 1 sfd12 64%N (world_with 7 []) = Some (ec, w1) /\
    signalfd_ctx_read Generic 0 sfd12 64%N (world_with 7 []) = Some (ec, w2) /\
    mem w1 = mem w2 /\ pending w1 = pending w2 /\ ready w1 = ready w2.
Proof.
  apply (platform_variants_agree 0 0 sfd12 64%N (world_with 7 [])).
  - split; constructor.
  - unfold wf_sigset. simpl. lia.
  - reflexivity.
Defined.



Lemma init_stops_and_rolls_back_witness :
  exists tr,
    events_of (world_with 1 [quiet; quiet; fails_efault]) after_init_rollback tr /\
    init_rollback 14 tr.
Proof.
  apply (init_stops_and_rolls_back Generic 3 3%N
           (world_with 1 [quiet; quiet; fails_efault]) 14 sfd12
           after_init_rollback).
  - vm_compute. reflexivity.
  - discriminate.
Defined.

Lemma init_success_calls_witness :
  sfd12 = {| kq := 3; sigs := 3 |} /\
  exists raw,
    events_of (world_with 4 []) after_init_ok
      ([EvMutexInit 0; EvKqueueEventInit 0;
        EvKevent (init_kevs Generic sfd12 [KevUser]) (Done 0);
        EvSigpending (Done 0) raw] ++
       (if (N.land raw 3 =? 0)%N then [] else [EvKqueueEventTrigger 0])).
Proof.
  apply (init_success_calls Generic 3 3%N (world_with 4 []) sfd12 after_init_ok).
  vm_compute. reflexivity.
Defined.

Lemma init_batch_covers_the_set_witness :
  (KevSignal 2 ∈ init_kevs OpenBSD sfd12 [KevUser]) /\
  kev_signals (init_kevs OpenBSD sfd12 [KevUser]) = sigs sfd12.
Proof.
  destruct (init_batch_covers_the_set OpenBSD sfd12) as (Hmem & _ & Hall).
  split.
  - apply Hmem. split; [simpl; lia|reflexivity].
  - apply Hall. unfold wf_sigset. simpl. lia.
Defined.
